(** * influxdb-relay: the retry buffer (relay/retry.go) and the HTTP relay.

    A shallow embedding of the Go code.  Go's [int], [int64] and
    [time.Duration] are [Z] with the 64-bit wrap-around written out
    ([wrap64]); [[]byte] is [list byte]; [string] is [string]; a Go map is
    a [gmap].  What the code obtains from outside the repository (the
    backend's answers, the wall clock, the line-protocol parser, the gzip
    decoder, the random generator) is an explicit oracle: a [Variable] of
    the enclosing [Section]. *)

From stdpp Require Import base list strings gmap pretty.
From Stdlib Require Import ZArith Lia Strings.Byte Strings.Ascii.

(** ** Machine integers and outcomes *)

Definition maxInt : Z := 2 ^ 63 - 1.
Definition minInt : Z := - 2 ^ 63.

(** Two's complement wrap-around of Go's 64-bit signed arithmetic. *)
Definition wrap64 (z : Z) : Z := ((z + 2 ^ 63) mod 2 ^ 64 - 2 ^ 63)%Z.

(** [len(b)] of a byte slice, as a Go [int]. *)
Definition len (b : list byte) : Z := Z.of_nat (length b).

(** A Go call either returns, or panics, or (for the loops modelled with
    fuel) has not returned within the fuel given. *)
Inductive outcome (A : Type) : Type :=
| Done (a : A)
| Panicked (why : string)
| OutOfFuel.
Arguments Done {A} a.
Arguments Panicked {A} why.
Arguments OutOfFuel {A}.

Definition bind {A B} (m : outcome A) (k : A → outcome B) : outcome B :=
  match m with
  | Done a => k a
  | Panicked why => Panicked why
  | OutOfFuel => OutOfFuel
  end.

Notation "'let!' x ':=' m 'in' k" := (bind m (λ x, k))
  (at level 10, x name, m at level 100, k at level 200, only parsing).

(** ** Durations (package time) *)

Module time.
Definition Nanosecond : Z := 1.
Definition Millisecond : Z := 1000000.
Definition Second : Z := 1000 * Millisecond.
(** [t.Sub(u)]: the difference, saturated to the range of a Duration. *)
Definition Sub (t u : Z) : Z := Z.max minInt (Z.min maxInt (t - u)).
End time.

(** ** responseData and the poster interface (HTTP relay) *)

Record responseData := {
  Headers : gmap string string;
  StatusCode : Z;
  Body : list byte;
}.

(** What [post] hands back: a response or an error, exactly one of the
    two being set. *)
Inductive post_result :=
| PostOk (resp : responseData)
| PostErr (err : string).

Definition StatusNoContent : Z := 204.
Definition StatusOK : Z := 200.
Definition StatusBadRequest : Z := 400.
Definition StatusMethodNotAllowed : Z := 405.
Definition StatusNotFound : Z := 404.
Definition StatusInternalServerError : Z := 500.

(** ** relay/retry.go *)

Definition retryInitial : Z := 500 * time.Millisecond.
Definition retryMultiplier : Z := 2.

Module batchPoints.
Record t := mk { Query : string; Auth : string; Data : list byte }.
End batchPoints.

Module cachedPoints.
Record t := mk {
  Query : string;
  Auth : string;
  Buf : list byte;      (* the contents of the bytes.Buffer *)
  BufSize : Z;
  Time : Z;             (* create time, nanoseconds *)
}.
End cachedPoints.

(** A buffered Go channel: its capacity and the elements waiting in it. *)
Record chan (A : Type) := { chan_cap : nat; chan_buf : list A }.
Arguments chan_cap {A} c.
Arguments chan_buf {A} c.

Definition make_chan (A : Type) (n : nat) : chan A :=
  {| chan_cap := n; chan_buf := [] |}.

(** A send either completes or, on a full buffer, parks the sender until
    the receiver takes an element. *)
Inductive call (A : Type) : Type :=
| Returns (a : A)
| Blocked.
Arguments Returns {A} a.
Arguments Blocked {A}.

Definition chan_send {A} (c : chan A) (x : A) : call (chan A) :=
  if decide (length (chan_buf c) < chan_cap c)
  then Returns {| chan_cap := chan_cap c; chan_buf := chan_buf c ++ [x] |}
  else Blocked.

Record retryBuffer (P : Type) := {
  initialInterval : Z;
  multiplier : Z;
  maxInterval : Z;
  maxBuffered : Z;
  maxBatch : Z;
  cachedItems : list cachedPoints.t;
  itemChan : chan batchPoints.t;
  p : P;
}.
Arguments initialInterval {P} r.
Arguments multiplier {P} r.
Arguments maxInterval {P} r.
Arguments maxBuffered {P} r.
Arguments maxBatch {P} r.
Arguments cachedItems {P} r.
Arguments itemChan {P} r.
Arguments p {P} r.

Definition newRetryBuffer {P} (size batch max : Z) (po : P) : retryBuffer P :=
  {| initialInterval := retryInitial;
     multiplier := retryMultiplier;
     maxInterval := max;
     maxBuffered := size;
     maxBatch := batch;
     p := po;
     cachedItems := [];
     itemChan := make_chan batchPoints.t (Z.to_nat 10000) |}.

Definition set_cachedItems {P} (r : retryBuffer P) (items : list cachedPoints.t)
  : retryBuffer P :=
  {| initialInterval := initialInterval r; multiplier := multiplier r;
     maxInterval := maxInterval r; maxBuffered := maxBuffered r;
     maxBatch := maxBatch r; cachedItems := items;
     itemChan := itemChan r; p := p r |}.

Definition set_itemChan {P} (r : retryBuffer P) (c : chan batchPoints.t)
  : retryBuffer P :=
  {| initialInterval := initialInterval r; multiplier := multiplier r;
     maxInterval := maxInterval r; maxBuffered := maxBuffered r;
     maxBatch := maxBatch r; cachedItems := cachedItems r;
     itemChan := c; p := p r |}.

(** [retryBuffer.post]: a plain (blocking) channel send, then the
    synthetic answer. *)
Definition retryBuffer_post {P} (r : retryBuffer P)
    (buf : list byte) (query auth : string)
  : call (retryBuffer P * post_result) :=
  match chan_send (itemChan r) (batchPoints.mk query auth buf) with
  | Returns c =>
      Returns (set_itemChan r c,
               PostOk {| Headers := ∅; StatusCode := StatusNoContent; Body := [] |})
  | Blocked => Blocked
  end.

(** What the processor goroutine does to the outside, in order. *)
Inductive event :=
| EvPost (data : list byte) (query auth : string)
| EvSleep (d : Z)
| EvLogSend (n : Z)
| EvLogLost (data : list byte).

(** The processor's view of the outside: how many times it has called
    [r.p.post] and [time.Now], and what it has done so far. *)
Record world := { n_post : nat; n_now : nat; trace : list event }.

Definition emit (w : world) (e : event) : world :=
  {| n_post := n_post w; n_now := n_now w; trace := trace w ++ [e] |}.

Definition tick_post (w : world) : world :=
  {| n_post := S (n_post w); n_now := n_now w; trace := trace w |}.

Definition tick_now (w : world) : world :=
  {| n_post := n_post w; n_now := S (n_now w); trace := trace w |}.

(** [err == nil && resp.StatusCode/100 != 5]; Go's [/] truncates. *)
Definition delivered (res : post_result) : bool :=
  match res with
  | PostOk resp => negb (Z.quot (StatusCode resp) 100 =? 5)%Z
  | PostErr _ => false
  end.

(** [bytes.Buffer.Write]: appends, and panics with ErrTooLarge rather than
    let the length leave the range of [int]. *)
Definition Buffer_Write (b data : list byte) : outcome (list byte) :=
  if (len b + len data >? maxInt)%Z then Panicked "bytes.Buffer: too large"
  else Done (b ++ data).

Section processor.
Context {P : Type}.
(** [reply k data query auth]: what the wrapped poster answers to the
    processor's [k]-th call. *)
Variable reply : nat → list byte → string → string → post_result.
(** [clock k]: the processor's [k]-th reading of [time.Now()]. *)
Variable clock : nat → Z.

(** The [range] loop of [addToCache]: the first cached batch with the
    same Auth and Query takes the data.  [None]: no batch matched. *)
Fixpoint addToCache_range (items : list cachedPoints.t) (points : batchPoints.t)
  : option (outcome (list cachedPoints.t)) :=
  match items with
  | [] => None
  | cached :: rest =>
      if decide (cachedPoints.Auth cached = batchPoints.Auth points
                 ∧ cachedPoints.Query cached = batchPoints.Query points)
      then Some (let! buf := Buffer_Write (cachedPoints.Buf cached)
                                     (batchPoints.Data points) in
                 Done (cachedPoints.mk (cachedPoints.Query cached)
                         (cachedPoints.Auth cached) buf
                         (wrap64 (cachedPoints.BufSize cached
                                  + len (batchPoints.Data points)))
                         (cachedPoints.Time cached) :: rest))
      else match addToCache_range rest points with
           | Some o => Some (let! items' := o in Done (cached :: items'))
           | None => None
           end
  end.

Definition addToCache (r : retryBuffer P) (w : world) (points : batchPoints.t)
  : outcome (retryBuffer P * world) :=
  match addToCache_range (cachedItems r) points with
  | Some o => let! items := o in Done (set_cachedItems r items, w)
  | None =>
      let cached := cachedPoints.mk (batchPoints.Query points)
                      (batchPoints.Auth points) [] 0 (clock (n_now w)) in
      Done (set_cachedItems r (cachedItems r ++ [cached]), tick_now w)
  end.

(** The [for] loop of [postToInfluxDB], one iteration per unit of fuel. *)
Fixpoint postToInfluxDB_loop (fuel : nat) (r : retryBuffer P)
    (data : list byte) (query auth : string) (interval : Z) (w : world)
  : outcome world :=
  match fuel with
  | O => OutOfFuel
  | S fuel' =>
      let res := reply (n_post w) data query auth in
      let w := emit (tick_post w) (EvPost data query auth) in
      if delivered res then Done (emit w (EvLogSend (len data)))
      else if (interval >=? maxInterval r)%Z then Done (emit w (EvLogLost data))
      else
        let interval :=
          if (interval <=? maxInterval r)%Z then
            let i := wrap64 (interval * multiplier r) in
            if (i >? maxInterval r)%Z then maxInterval r else i
          else interval in
        postToInfluxDB_loop fuel' r data query auth interval
          (emit w (EvSleep interval))
  end.

Definition postToInfluxDB (fuel : nat) (r : retryBuffer P)
    (data : list byte) (query auth : string) (w : world) : outcome world :=
  postToInfluxDB_loop fuel r data query auth (initialInterval r) w.

(** The flush test of the scan. *)
Definition due (r : retryBuffer P) (nowTime : Z) (cached : cachedPoints.t) : bool :=
  (time.Sub nowTime (cachedPoints.Time cached) >? maxInterval r)%Z
  || (cachedPoints.BufSize cached >? maxBuffered r)%Z.

(** [for index, cached := range r.cachedItems]: the range walks the slice
    as it was when the loop began ([arr], all [todo + index] slots of the
    backing array), while [r.cachedItems] itself, the first [m] slots,
    shrinks in place under it.  Removing slot [index] moves slots
    [index+1 .. m-1] one to the left and leaves the rest of the array as
    it was; [r.cachedItems[index+1:]] panics once [index+1] exceeds the
    current length. *)
Fixpoint scan (fuel : nat) (r : retryBuffer P) (todo index : nat)
    (arr : list cachedPoints.t) (m : nat) (w : world)
  : outcome (list cachedPoints.t * world) :=
  match todo with
  | O => Done (take m arr, w)
  | S todo' =>
      match arr !! index with
      | None => Panicked "index out of range"
      | Some cached =>
          let nowTime := clock (n_now w) in
          let w := tick_now w in
          if due r nowTime cached then
            if decide (index + 1 ≤ m) then
              let arr' := take index arr ++ drop (index + 1) (take m arr)
                          ++ drop (m - 1) arr in
              let! w' := postToInfluxDB fuel r (cachedPoints.Buf cached)
                           (cachedPoints.Query cached)
                           (cachedPoints.Auth cached) w in
              scan fuel r todo' (S index) arr' (m - 1) w'
            else Panicked "slice bounds out of range"
          else scan fuel r todo' (S index) arr m w
      end
  end.

(** One turn of the [for] loop of [run]: a non-blocking receive (or the
    10 ms nap), then the scan. *)
Definition run_iteration (fuel : nat) (r : retryBuffer P) (w : world)
  : outcome (retryBuffer P * world) :=
  let! rw :=
            match chan_buf (itemChan r) with
            | points :: rest =>
                addToCache
                  (set_itemChan r {| chan_cap := chan_cap (itemChan r);
                                     chan_buf := rest |})
                  w points
            | [] => Done (r, emit w (EvSleep (10 * time.Millisecond)))
            end in
  let r := rw.1 in
  let! iw := scan fuel r (length (cachedItems r)) 0 (cachedItems r)
               (length (cachedItems r)) rw.2 in
  Done (set_cachedItems r iw.1, iw.2).

End processor.

(** The batch key of the data model: (query, auth). *)
Definition batch_key (c : cachedPoints.t) : string * string :=
  (cachedPoints.Query c, cachedPoints.Auth c).

(** The size field tracks the accumulator. *)
Definition size_ok (c : cachedPoints.t) : Prop :=
  cachedPoints.BufSize c = len (cachedPoints.Buf c).

(** The two invariants of the cached-batch list. *)
Definition cache_ok (items : list cachedPoints.t) : Prop :=
  Forall size_ok items ∧ NoDup (batch_key <$> items).

(** The states of a retry buffer and its processor: a new buffer, then any
    interleaving of admissions ([retryBuffer.post] returning) and turns of
    the processing loop. *)
Inductive reachable {P} (reply : nat → list byte → string → string → post_result)
    (clock : nat → Z) : retryBuffer P → world → Prop :=
| reach_new size batch max po :
    reachable reply clock (newRetryBuffer size batch max po)
      {| n_post := 0; n_now := 0; trace := [] |}
| reach_post r w buf query auth r' res :
    reachable reply clock r w →
    retryBuffer_post r buf query auth = Returns (r', res) →
    reachable reply clock r' w
| reach_run r w fuel r' w' :
    reachable reply clock r w →
    run_iteration reply clock fuel r w = Done (r', w') →
    reachable reply clock r' w'.

(** The interval in force at the [i]-th failure of a flush. *)
Definition backoff (maxI : Z) (i : nat) : Z :=
  Z.min (retryInitial * 2 ^ Z.of_nat i) maxI.

(** The failed posts [i .. i+n-1] of a flush, each followed by the sleep
    that precedes the next post. *)
Definition retries (data : list byte) (query auth : string) (maxI : Z)
    (i n : nat) : list event :=
  concat ((λ k, [EvPost data query auth; EvSleep (backoff maxI (S k))]) <$> seq i n).

(** What a flush does when its first [n] posts fail and the next one ends
    it with [last]. *)
Definition flush_trace (data : list byte) (query auth : string) (maxI : Z)
    (n : nat) (last : event) : list event :=
  retries data query auth maxI 0 n ++ [EvPost data query auth; last].

(** How a flush that gives up or gets through reports it. *)
Definition flush_end (data : list byte) (res : post_result) : event :=
  if delivered res then EvLogSend (len data) else EvLogLost data.

(** ** Package strings, as far as the relay uses it *)

Definition ascii_code (c : ascii) : N := Ascii.N_of_ascii c.

(** The loop at the head of [strings.ToUpper]: every byte below
    [utf8.RuneSelf]. *)
Fixpoint isASCII (s : string) : bool :=
  match s with
  | EmptyString => true
  | String c s' => (ascii_code c <? 128)%N && isASCII s'
  end.

Definition upper_byte (c : ascii) : ascii :=
  if ((97 <=? ascii_code c) && (ascii_code c <=? 122))%N
  then Ascii.ascii_of_N (ascii_code c - 32) else c.

Definition lower_byte (c : ascii) : ascii :=
  if ((65 <=? ascii_code c) && (ascii_code c <=? 90))%N
  then Ascii.ascii_of_N (ascii_code c + 32) else c.

Fixpoint map_bytes (f : ascii → ascii) (s : string) : string :=
  match s with
  | EmptyString => EmptyString
  | String c s' => String (f c) (map_bytes f s')
  end.

(** [strings.Trim(s, cutset)] for a cutset of ASCII bytes. *)
Fixpoint in_cutset (cutset : string) (c : ascii) : bool :=
  match cutset with
  | EmptyString => false
  | String c' rest => bool_decide (c = c') || in_cutset rest c
  end.

Fixpoint TrimLeft (s cutset : string) : string :=
  match s with
  | EmptyString => EmptyString
  | String c s' => if in_cutset cutset c then TrimLeft s' cutset else s
  end.

(** The part of [s] that stays when its trailing cutset bytes go. *)
Fixpoint TrimRight (s cutset : string) : string :=
  match s with
  | EmptyString => EmptyString
  | String c s' =>
      match TrimRight s' cutset with
      | EmptyString => if in_cutset cutset c then EmptyString else String c EmptyString
      | t => String c t
      end
  end.

Definition Trim (s cutset : string) : string :=
  TrimRight (TrimLeft s cutset) cutset.

(** [strings.Split(s, sep)] for a separator of one byte: never empty, and
    [[""]] for the empty string. *)
Fixpoint Split (s : string) (sep : ascii) : list string :=
  match s with
  | EmptyString => [EmptyString]
  | String c s' =>
      if bool_decide (c = sep) then EmptyString :: Split s' sep
      else match Split s' sep with
           | t :: ts => String c t :: ts
           | [] => [String c EmptyString]
           end
  end.

Definition space : ascii := Ascii.ascii_of_N 32.
Definition tab : ascii := Ascii.ascii_of_N 9.
Definition cr : ascii := Ascii.ascii_of_N 13.
Definition nl : ascii := Ascii.ascii_of_N 10.
Definition dquote : ascii := Ascii.ascii_of_N 34.

(** The cutset of [serveQuery]: space, tab, carriage return, newline. *)
Definition whitespace : string :=
  String space (String tab (String cr (String nl EmptyString))).

(** ** net/http and net/url, as far as the relay uses them *)

(** [url.Values] and [http.Header]: a key to its list of values. *)
Abbreviation Values := (gmap string (list string)).

Definition Values_Get (v : Values) (key : string) : string :=
  match v !! key with
  | Some (x :: _) => x
  | _ => EmptyString
  end.

Definition Values_Set (v : Values) (key value : string) : Values :=
  <[key := [value]]> v.

(** An [io.Reader] by what reading it to the end gives: the bytes, then
    end of file ([None]) or an error. *)
Record reader := { r_data : list byte; r_err : option string }.

Module Request.
Record t := mk {
  Method : string;
  URL_Path : string;
  URL_Query : Values;      (* r.URL.Query() *)
  Header : Values;         (* keys in canonical form *)
  Body : reader;
}.
End Request.

(** An [http.ResponseWriter]: the header map, the status once written,
    and the body bytes. *)
Record ResponseWriter := {
  w_Header : Values;
  w_status : option Z;
  w_body : list byte;
}.

Definition new_ResponseWriter : ResponseWriter :=
  {| w_Header := ∅; w_status := None; w_body := [] |}.

(** What the client sees: a handler that never wrote a status gets 200. *)
Definition sent_status (w : ResponseWriter) : Z := default StatusOK (w_status w).

(** [w.WriteHeader(code)]; a second call changes nothing. *)
Definition WriteHeader (w : ResponseWriter) (code : Z) : ResponseWriter :=
  match w_status w with
  | Some _ => w
  | None => {| w_Header := w_Header w; w_status := Some code; w_body := w_body w |}
  end.

(** [w.Write(data)]: an implicit [WriteHeader(http.StatusOK)] first. *)
Definition Write (w : ResponseWriter) (data : list byte) : ResponseWriter :=
  let w := WriteHeader w StatusOK in
  {| w_Header := w_Header w; w_status := w_status w; w_body := w_body w ++ data |}.

(** ** The relay's types *)

Record tls_Config := { InsecureSkipVerify : bool }.
Record http_Transport := { TLSClientConfig : tls_Config }.
Record http_Client := { Timeout : Z; Transport : http_Transport }.

Record simplePoster := { client : http_Client; location : string }.

(** The two implementations of the [poster] interface. *)
#[warnings="-register-all"]
Inductive poster :=
| SimplePoster (sp : simplePoster)
| RetryBuffer (rb : retryBuffer poster).

Record httpBackend := { backend_poster : poster; name : string }.

Record HTTP := {
  addr : string;
  relay_name : string;
  schema : string;
  cert : string;
  rp : string;
  closing : Z;
  backends : list httpBackend;
  queries : list httpBackend;
}.

Definition DefaultHTTPTimeout : Z := 10 * time.Second.
Definition DefaultMaxDelayInterval : Z := 10 * time.Second.
Definition DefaultBatchSizeKB : Z := 512.
Definition KB : Z := 1024.
Definition MB : Z := 1024 * KB.

(** Modelled from the spec: the configuration records (the file that
    declares them is not among the sources); fields as section 6 lists
    them and as the constructors below read them. *)
Module HTTPOutputConfig.
Record t := mk {
  Name : string;
  Location : string;
  Timeout : string;
  SkipTLSVerification : bool;
  BufferSizeMB : Z;
  MaxBatchKB : Z;
  MaxDelayInterval : string;
}.
End HTTPOutputConfig.

Module HTTPQueryConfig.
Record t := mk { Name : string; Location : string; Timeout : string }.
End HTTPQueryConfig.

Module HTTPConfig.
Record t := mk {
  Name : string;
  Addr : string;
  SSLCombinedPem : string;
  DefaultRetentionPolicy : string;
  Outputs : list HTTPOutputConfig.t;
  Queries : list HTTPQueryConfig.t;
}.
End HTTPConfig.

Definition newSimplePoster (location : string) (timeout : Z)
    (skipTLSVerification : bool) : simplePoster :=
  {| client := {| Timeout := timeout;
                  Transport := {| TLSClientConfig :=
                                    {| InsecureSkipVerify := skipTLSVerification |} |} |};
     location := location |}.

(** The [simplePoster] that in the end talks to the backend. *)
Fixpoint simple_of (po : poster) : simplePoster :=
  match po with
  | SimplePoster sp => sp
  | RetryBuffer rb => simple_of (p rb)
  end.

(** [getBuf]: a buffer whose initial contents are a slice of length 2 KB. *)
Definition getBuf : list byte := replicate (Z.to_nat (2 * KB)) x00.

(** A request handed to a backend: who, and the three arguments of [post]. *)
Record posted := {
  to : httpBackend;
  post_body : list byte;
  post_query : string;
  post_auth : string;
}.

(** What a handler has done when it ends: the response as written, the
    backend posts it made or spawned, and the panic that ended it if one
    did. *)
Record served := {
  response : ResponseWriter;
  posts : list posted;
  panic : option string;
}.

Definition respond (w : ResponseWriter) : served :=
  {| response := w; posts := []; panic := None |}.

(** The statements that go to one query backend, and those that go to
    all of them. *)
Definition single_node_tokens : list string := ["SELECT"; "SHOW"].
Definition all_node_tokens : list string :=
  ["DELETE"; "DROP"; "GRANT"; "REVOKE"; "ALTER"; "SET"; "CREATE"].

(** ** The HTTP relay *)

Section relay.
(** Library functions the relay calls, and the outside it talks to. *)
(** [strings.Map(unicode.ToUpper, s)], which [strings.ToUpper] falls
    back on for a string with a byte outside ASCII. *)
Variable unicode_ToUpper : string → string.
(** [textproto.CanonicalMIMEHeaderKey]. *)
Variable CanonicalMIMEHeaderKey : string → string.
(** [strconv.Quote], the verb [%q] of [fmt]. *)
Variable Quote : string → string.
(** [url.Values.Encode]. *)
Variable Encode : Values → string.
(** [time.ParseDuration]: nanoseconds, or the error's text. *)
Variable ParseDuration : string → Z + string.
(** The points of the line protocol, [models.ParsePointsWithPrecision]
    ([None]: an error) and [Point.PrecisionString]. *)
Variable Point : Type.
Variable ParsePointsWithPrecision : list byte → Z → string → option (list Point).
Variable PrecisionString : Point → string → string.
(** [gzip.NewReader]: the decoding reader, or [None] when it returns an
    error (it reads the header of the stream). *)
Variable gzip_NewReader : reader → option reader.
(** What a backend's poster answers to a post made by a handler. *)
Variable backend_post : httpBackend → list byte → string → string → post_result.
(** The draw of [rand.Intn] before it is reduced into range, and the
    reading of [time.Now()] at the start of a write. *)
Variable random : nat.
Variable now : Z.

Definition ToUpper (s : string) : string :=
  if isASCII s then map_bytes upper_byte s else unicode_ToUpper s.

Definition Header_Get (h : Values) (key : string) : string :=
  Values_Get h (CanonicalMIMEHeaderKey key).

Definition Header_Set (w : ResponseWriter) (key value : string) : ResponseWriter :=
  {| w_Header := <[CanonicalMIMEHeaderKey key := [value]]> (w_Header w);
     w_status := w_status w; w_body := w_body w |}.

Definition Header_Add (w : ResponseWriter) (key value : string) : ResponseWriter :=
  {| w_Header := <[CanonicalMIMEHeaderKey key :=
                     default [] (w_Header w !! CanonicalMIMEHeaderKey key) ++ [value]]>
                   (w_Header w);
     w_status := w_status w; w_body := w_body w |}.

(** The body of a JSON error: an object with the one key error, the
    message quoted, and a newline. *)
Definition jsonError_data (message : string) : string :=
  String "{" (String dquote ("error" +:+ String dquote (":" +:+ Quote message
    +:+ String "}" (String nl EmptyString)))).

Definition jsonError (w : ResponseWriter) (code : Z) (message : string)
  : ResponseWriter :=
  let w := Header_Set w "Content-Type" "application/json" in
  let data := jsonError_data message in
  let w := Header_Set w "Content-Length" (pretty (String.length data)) in
  let w := WriteHeader w code in
  Write w (String.list_byte_of_string data).

Definition newHttpQueryBackend (cfg : HTTPQueryConfig.t) : httpBackend + string :=
  let cfg_Name := if decide (HTTPQueryConfig.Name cfg = "")
                  then HTTPQueryConfig.Location cfg else HTTPQueryConfig.Name cfg in
  let timeout :=
    if decide (HTTPQueryConfig.Timeout cfg = "") then inl DefaultHTTPTimeout
    else ParseDuration (HTTPQueryConfig.Timeout cfg) in
  match timeout with
  | inr err => inr ("error parsing HTTP timeout '" +:+ err +:+ "'")
  | inl timeout =>
      inl {| backend_poster :=
               SimplePoster (newSimplePoster (HTTPQueryConfig.Location cfg) timeout true);
             name := cfg_Name |}
  end.

Definition newHTTPBackend (cfg : HTTPOutputConfig.t) : httpBackend + string :=
  let cfg_Name := if decide (HTTPOutputConfig.Name cfg = "")
                  then HTTPOutputConfig.Location cfg else HTTPOutputConfig.Name cfg in
  let timeout :=
    if decide (HTTPOutputConfig.Timeout cfg = "") then inl DefaultHTTPTimeout
    else ParseDuration (HTTPOutputConfig.Timeout cfg) in
  match timeout with
  | inr err => inr ("error parsing HTTP timeout '" +:+ err +:+ "'")
  | inl timeout =>
      let po := SimplePoster (newSimplePoster (HTTPOutputConfig.Location cfg) timeout
                                (HTTPOutputConfig.SkipTLSVerification cfg)) in
      if (HTTPOutputConfig.BufferSizeMB cfg >? 0)%Z then
        let max :=
          if decide (HTTPOutputConfig.MaxDelayInterval cfg = "")
          then inl DefaultMaxDelayInterval
          else ParseDuration (HTTPOutputConfig.MaxDelayInterval cfg) in
        match max with
        | inr err => inr ("error parsing max retry time " +:+ err)
        | inl max =>
            let batch :=
              if (HTTPOutputConfig.MaxBatchKB cfg >? 0)%Z
              then wrap64 (HTTPOutputConfig.MaxBatchKB cfg * KB)
              else (DefaultBatchSizeKB * KB)%Z in
            inl {| backend_poster :=
                     RetryBuffer (newRetryBuffer
                                    (wrap64 (HTTPOutputConfig.BufferSizeMB cfg * MB))
                                    batch max po);
                   name := cfg_Name |}
        end
      else inl {| backend_poster := po; name := cfg_Name |}
  end.

(** The two construction loops of [NewHTTP]: the first error ends them. *)
Fixpoint build {C} (make : C → httpBackend + string) (cfgs : list C)
  : list httpBackend + string :=
  match cfgs with
  | [] => inl []
  | cfg :: rest =>
      match make cfg with
      | inr err => inr err
      | inl b => match build make rest with
                 | inr err => inr err
                 | inl bs => inl (b :: bs)
                 end
      end
  end.

Definition NewHTTP (cfg : HTTPConfig.t) : HTTP + string :=
  match build newHTTPBackend (HTTPConfig.Outputs cfg) with
  | inr err => inr err
  | inl bs =>
      match build newHttpQueryBackend (HTTPConfig.Queries cfg) with
      | inr err => inr err
      | inl qs =>
          inl {| addr := HTTPConfig.Addr cfg;
                 relay_name := HTTPConfig.Name cfg;
                 schema := if decide (HTTPConfig.SSLCombinedPem cfg = "")
                           then "http" else "https";
                 cert := HTTPConfig.SSLCombinedPem cfg;
                 rp := HTTPConfig.DefaultRetentionPolicy cfg;
                 closing := 0;
                 backends := bs;
                 queries := qs |}
      end
  end.

Definition servePing (w : ResponseWriter) (r : Request.t) : served :=
  respond (WriteHeader (Header_Add w "X-InfluxDB-Version" "relay") StatusNoContent).

(** [tokens[0]] for a given value of the [q] parameter. *)
Definition token_of (q : string) : string :=
  let q := Trim (ToUpper q) whitespace in
  let tokens := Split q space in
  hd EmptyString tokens.

Definition first_token (r : Request.t) : string :=
  token_of (Values_Get (Request.URL_Query r) "q").

(** The answer a backend gives to the query forwarded from [r]. *)
Definition answer_to (r : Request.t) (b : httpBackend) : post_result :=
  backend_post b [] (Encode (Request.URL_Query r))
    (Header_Get (Request.Header r) "Authorization").

Definition single_node_request (h : HTTP) (w : ResponseWriter) (r : Request.t)
  : served :=
  match length (queries h) with
  | O => {| response := w; posts := []; panic := Some "invalid argument to Intn" |}
  | S _ =>
      let n := random `mod` length (queries h) in
      match queries h !! n with
      | None => {| response := w; posts := []; panic := Some "index out of range" |}
      | Some b =>
          let query := Encode (Request.URL_Query r) in
          let auth := Header_Get (Request.Header r) "Authorization" in
          let call := {| to := b; post_body := []; post_query := query;
                         post_auth := auth |} in
          match backend_post b [] query auth with
          | PostOk resp =>
              let w := foldl (λ w kv, Header_Set w kv.1 kv.2) w
                         (map_to_list (Headers resp)) in
              {| response := Write w (Body resp); posts := [call]; panic := None |}
          | PostErr _ =>
              {| response := jsonError w StatusBadRequest "request failed";
                 posts := [call]; panic := None |}
          end
      end
  end.

(** The loop of [all_node_request]: [resp, err] after it are those of the
    last backend; [None] when there was no backend to post to. *)
Definition all_node_loop (h : HTTP) (r : Request.t) : option post_result :=
  foldl (λ _ q, Some (backend_post q [] (Encode (Request.URL_Query r))
                        (Header_Get (Request.Header r) "Authorization")))
        None (queries h).

Definition all_node_request (h : HTTP) (w : ResponseWriter) (r : Request.t)
  : served :=
  let calls := (λ q, {| to := q; post_body := [];
                        post_query := Encode (Request.URL_Query r);
                        post_auth := Header_Get (Request.Header r) "Authorization" |})
               <$> queries h in
  match all_node_loop h r with
  | None => {| response := w; posts := calls;
               panic := Some "nil pointer dereference" |}
  | Some (PostOk resp) =>
      {| response := Write w (Body resp); posts := calls; panic := None |}
  | Some (PostErr _) =>
      {| response := WriteHeader w StatusInternalServerError; posts := calls;
         panic := None |}
  end.

Definition error_request (w : ResponseWriter) (r : Request.t) (token : string)
  : served :=
  respond (jsonError w StatusBadRequest
             ("relay is not support `" +:+ token +:+ "` expr!")).

Definition serveQuery (h : HTTP) (w : ResponseWriter) (r : Request.t) : served :=
  let token := first_token r in
  if bool_decide (token ∈ single_node_tokens) then single_node_request h w r
  else if bool_decide (token ∈ all_node_tokens) then all_node_request h w r
  else if bool_decide (token = "KILL") then error_request w r token
  else error_request w r token.

(** [bodyBuf.ReadFrom(body)]: what was read goes after what the buffer
    holds; the reader's error, if any, is returned. *)
Definition ReadFrom (buf : list byte) (body : reader)
  : outcome (list byte * option string) :=
  let! buf := Buffer_Write buf (r_data body) in
  Done (buf, r_err body).

(** The points re-serialized at [precision], a line feed after each. *)
Definition serialized (points : list Point) (precision : string) : list byte :=
  concat ((λ pt, String.list_byte_of_string (PrecisionString pt precision) ++ [x0a])
          <$> points).

(** The query parameters after the default retention policy is filled in. *)
Definition queryParams_of (h : HTTP) (r : Request.t) : Values :=
  if bool_decide (Values_Get (Request.URL_Query r) "rp" = "")
     && negb (bool_decide (rp h = ""))
  then Values_Set (Request.URL_Query r) "rp" (rp h) else Request.URL_Query r.

(** The loop that writes the points out, each followed by a newline.
    Neither write of a [bytes.Buffer] returns an error, so the branch that
    answers 500 after the loop is never taken. *)
Fixpoint write_points (outBuf : list byte) (points : list Point)
    (precision : string) : outcome (list byte) :=
  match points with
  | [] => Done outBuf
  | pt :: rest =>
      let! outBuf := Buffer_Write outBuf
                       (String.list_byte_of_string (PrecisionString pt precision)) in
      let! outBuf := Buffer_Write outBuf [x0a] in
      write_points outBuf rest precision
  end.

Definition panicking (w : ResponseWriter) (why : string) : served :=
  {| response := w; posts := []; panic := Some why |}.

(** Go on with the value of a call that returned; a panic ends the
    handler with the response as it stands. *)
Definition or_panic {A} (w : ResponseWriter) (o : outcome A) (k : A → served)
  : served :=
  match o with
  | Done a => k a
  | Panicked why => panicking w why
  | OutOfFuel => panicking w "no result"
  end.

(** [serveWrite] from the point where the body is read. *)
Definition serveWrite_body (h : HTTP) (w : ResponseWriter) (r : Request.t)
    (queryParams : Values) (body : reader) : served :=
  or_panic w (ReadFrom getBuf body) (λ read,
    match read.2 with
    | Some _ =>
        respond (jsonError w StatusInternalServerError "problem reading request body")
    | None =>
        let bodyBuf := read.1 in
        let precision := Values_Get queryParams "precision" in
        match ParsePointsWithPrecision bodyBuf now precision with
        | None => respond (jsonError w StatusBadRequest "unable to parse points")
        | Some points =>
            or_panic w (write_points getBuf points precision) (λ outBytes,
              let query := Encode queryParams in
              let authHeader := Header_Get (Request.Header r) "Authorization" in
              {| response := WriteHeader w StatusNoContent;
                 posts := (λ b, {| to := b; post_body := outBytes;
                                   post_query := query; post_auth := authHeader |})
                          <$> backends h;
                 panic := None |})
        end
    end).

Definition serveWrite (h : HTTP) (w : ResponseWriter) (r : Request.t) : served :=
  if negb (bool_decide (Request.Method r = "POST")) then
    let w := Header_Set w "Allow" "POST" in
    if bool_decide (Request.Method r = "OPTIONS")
    then respond (WriteHeader w StatusNoContent)
    else respond (jsonError w StatusMethodNotAllowed "invalid write method")
  else
    let queryParams := Request.URL_Query r in
    if bool_decide (Values_Get queryParams "db" = "")
    then respond (jsonError w StatusBadRequest "missing parameter: db")
    else
      let queryParams := queryParams_of h r in
      if bool_decide (Header_Get (Request.Header r) "Content-Encoding" = "gzip") then
        match gzip_NewReader (Request.Body r) with
        | None =>
            (* no return after the error: the nil decoder becomes the body *)
            panicking (jsonError w StatusBadRequest "unable to decode gzip body")
              "nil pointer dereference"
        | Some b => serveWrite_body h w r queryParams b
        end
      else serveWrite_body h w r queryParams (Request.Body r).

Definition ServeHTTP (h : HTTP) (w : ResponseWriter) (r : Request.t) : served :=
  if bool_decide (Request.URL_Path r = "/ping") then servePing w r
  else if bool_decide (Request.URL_Path r = "/query") then serveQuery h w r
  else if bool_decide (Request.URL_Path r = "/write") then serveWrite h w r
  else respond (jsonError w StatusNotFound "invalid write endpoint").

End relay.

(** Whether the poster that reaches the backend skips the verification of
    the TLS certificate. *)
Definition skipTLS (b : httpBackend) : bool :=
  InsecureSkipVerify (TLSClientConfig (Transport (client (simple_of (backend_poster b))))).

(** Every byte of [s] is in the cutset. *)
Fixpoint all_in_cutset (cutset s : string) : bool :=
  match s with
  | EmptyString => true
  | String c s' => in_cutset cutset c && all_in_cutset cutset s'
  end.

(** The request [r] with its [q] parameter replaced. *)
Definition with_q (r : Request.t) (q : string) : Request.t :=
  Request.mk (Request.Method r) (Request.URL_Path r)
    (Values_Set (Request.URL_Query r) "q" q) (Request.Header r) (Request.Body r).

(** ** Concrete inputs used by the examples below *)

(** A backend that refuses every connection. *)
Definition refusing : nat → list byte → string → string → post_result :=
  λ _ _ _ _, PostErr "connection refused".

(** A backend that accepts every write. *)
Definition accepting : nat → list byte → string → string → post_result :=
  λ _ _ _ _, PostOk {| Headers := ∅; StatusCode := StatusNoContent; Body := [] |}.

(** A clock that stands at [t]. *)
Definition clock_at (t : Z) : nat → Z := λ _, t.

Definition world0 : world := {| n_post := 0; n_now := 0; trace := [] |}.

(** A buffer as [newHTTPBackend] makes it for [buffer-size-mb = 1]. *)
Definition demo_buffer : retryBuffer () :=
  newRetryBuffer 1048576 524288 (10 * time.Second) ().

Definition demo_A : list byte := [x61; x20; x76; x3d; x31; x0a].  (* a v=1 *)
Definition demo_B : list byte := [x62; x20; x76; x3d; x32; x0a].  (* b v=2 *)

(** [demo_buffer] after two admissions under the same key. *)
Definition demo_admitted : retryBuffer () :=
  set_itemChan demo_buffer
    {| chan_cap := Z.to_nat 10000;
       chan_buf := [batchPoints.mk "db=x" "" demo_A; batchPoints.mk "db=x" "" demo_B] |}.

(** ... and after the processor has taken both of them. *)
Definition demo_cached : retryBuffer () :=
  set_cachedItems demo_buffer [cachedPoints.mk "db=x" "" demo_B 6 0].

Definition demo_cached_world : world :=
  {| n_post := 0; n_now := 3; trace := [] |}.

(** A buffer whose admission channel is full. *)
Definition demo_full : retryBuffer () :=
  set_itemChan demo_buffer
    {| chan_cap := Z.to_nat 10000;
       chan_buf := replicate (Z.to_nat 10000) (batchPoints.mk "db=x" "" demo_A) |}.

(** A clock that reads 0 three times and 11 s from then on. *)
Definition demo_clock : nat → Z :=
  λ k, if decide (k < 3) then 0%Z else (11 * time.Second)%Z.

(** The synthetic answer of [retryBuffer.post]. *)
Definition accepted : post_result :=
  PostOk {| Headers := ∅; StatusCode := StatusNoContent; Body := [] |}.

(** *** Stand-ins for the library functions, for the examples only *)

(** [CanonicalMIMEHeaderKey] on keys made of letters, digits and hyphens:
    upper case at the start and after a hyphen, lower case elsewhere. *)
Fixpoint canonical_from (up : bool) (s : string) : string :=
  match s with
  | EmptyString => EmptyString
  | String c s' =>
      String (if up then upper_byte c else lower_byte c)
             (canonical_from (bool_decide (c = Ascii.ascii_of_N 45)) s')
  end.

Definition demo_canonical (s : string) : string := canonical_from true s.

(** [strconv.Quote] on text that needs no escape. *)
Definition demo_Quote (s : string) : string :=
  String dquote (s +:+ String dquote EmptyString).

(** [Values.Encode] without the sorting and the escaping: the first value
    of each key. *)
Definition demo_Encode (v : Values) : string :=
  String.concat "&" ((λ kv, kv.1 +:+ "=" +:+ hd EmptyString kv.2) <$> map_to_list v).

(** [time.ParseDuration] on the one text the examples use. *)
Definition demo_ParseDuration (s : string) : Z + string :=
  if decide (s = "30s") then inl (30 * time.Second)%Z
  else inr ("time: invalid duration " +:+ s).

(** A parser that skips NUL bytes and takes what is left, up to the first
    line feed, as one point; a point prints as its text. *)
Fixpoint skip_nul (buf : list byte) : list byte :=
  match buf with
  | b :: rest => if Byte.eqb b x00 then skip_nul rest else buf
  | [] => []
  end.

Fixpoint first_line (buf : list byte) : list byte :=
  match buf with
  | b :: rest => if Byte.eqb b x0a then [] else b :: first_line rest
  | [] => []
  end.

Definition demo_Parse (buf : list byte) (start : Z) (precision : string)
  : option (list string) :=
  match first_line (skip_nul buf) with
  | [] => Some []
  | line => Some [String.string_of_list_byte line]
  end.

Definition demo_PrecisionString (pt : string) (precision : string) : string := pt.

(** [gzip.NewReader] on the streams of the examples: a stream that opens
    with the gzip magic and the deflate method decodes (here: to a stream
    that ends before its trailer, with io.ErrUnexpectedEOF); any other
    header is an error. *)
Definition demo_gzip (body : reader) : option reader :=
  match r_data body with
  | b1 :: b2 :: b3 :: _ =>
      if Byte.eqb b1 x1f && Byte.eqb b2 x8b && Byte.eqb b3 x08
      then Some {| r_data := []; r_err := Some "unexpected EOF" |}
      else None
  | _ => None
  end.

(** Ten header bytes of a gzip stream and an empty final deflate block;
    the eight bytes of the trailer are cut to four. *)
Definition gzip_cut_trailer : list byte :=
  [x1f; x8b; x08; x00; x00; x00; x00; x00; x00; x03;
   x03; x00;
   x00; x00; x00; x00].

Definition demo_relay (bs qs : list httpBackend) : HTTP :=
  {| addr := ":9096"; relay_name := "relay"; schema := "http"; cert := "";
     rp := ""; closing := 0; backends := bs; queries := qs |}.

Definition demo_backend (nm : string) : httpBackend :=
  {| backend_poster := SimplePoster (newSimplePoster nm DefaultHTTPTimeout true);
     name := nm |}.

(** POST /write?db=x&precision=s with the body [cpu value=1 1700000000]. *)
Definition demo_line : string := "cpu value=1 1700000000".

Definition demo_write : Request.t :=
  Request.mk "POST" "/write" {[ "db" := ["x"]; "precision" := ["s"] ]} ∅
    {| r_data := String.list_byte_of_string demo_line; r_err := None |}.

(** The same request, gzip-encoded, its stream cut inside the trailer. *)
Definition demo_write_gzip : Request.t :=
  Request.mk "POST" "/write" {[ "db" := ["x"]; "precision" := ["s"] ]}
    {[ "Content-Encoding" := ["gzip"] ]}
    {| r_data := gzip_cut_trailer; r_err := None |}.

Definition demo_query (q : string) : Request.t :=
  Request.mk "GET" "/query" {[ "q" := [q] ]} ∅ {| r_data := []; r_err := None |}.

(** Backends that answer by name: [up] with a body, [down] with a
    transport error, [broken] with a 500 and a body of its own. *)
Definition demo_answers (b : httpBackend) (body : list byte) (query auth : string)
  : post_result :=
  if decide (name b = "up") then
    PostOk {| Headers := {[ "content-type" := "application/json" ]};
              StatusCode := StatusOK; Body := [x7b; x7d] |}
  else if decide (name b = "broken") then
    PostOk {| Headers := {[ "content-type" := "application/json" ]};
              StatusCode := StatusInternalServerError; Body := [x6f; x6f; x70; x73] |}
  else PostErr "connection refused".

(** A query backend and a write output that asks for verification. *)
Definition demo_query_cfg : HTTPQueryConfig.t :=
  HTTPQueryConfig.mk "q1" "https://db1:8086/query" "30s".

Definition demo_output_cfg : HTTPOutputConfig.t :=
  HTTPOutputConfig.mk "w1" "https://db1:8086/write" "" false 1 0 "".

(** The handlers with the stand-ins in place. *)
Definition demo_serveWrite (h : HTTP) (r : Request.t) : served :=
  serveWrite demo_canonical demo_Quote demo_Encode string demo_Parse
    demo_PrecisionString demo_gzip 0 h new_ResponseWriter r.

Definition demo_serveQuery (h : HTTP) (r : Request.t) : served :=
  serveQuery id demo_canonical demo_Quote demo_Encode demo_answers 7 h
    new_ResponseWriter r.

Definition two_writers : HTTP :=
  demo_relay [demo_backend "b1"; demo_backend "b2"] [].

(** Query backends: the first answers, the second is down. *)
Definition up_then_down : HTTP :=
  demo_relay [] [demo_backend "up"; demo_backend "down"].

(** One query backend, which answers every query with a 500. *)
Definition only_broken : HTTP := demo_relay [] [demo_backend "broken"].

Definition demo_drop : Request.t := demo_query "drop database x".
Definition demo_select : Request.t := demo_query "select * from cpu".

(** ** Further definitions *)

(** The posts among the events of a trace, as (data, query, auth). *)
Definition posted_of (e : event) : option (list byte * string * string) :=
  match e with
  | EvPost data query auth => Some (data, query, auth)
  | _ => None
  end.

Definition posts_of (tr : list event) : list (list byte * string * string) :=
  omap posted_of tr.

(** What a flush would post for a cached batch. *)
Definition payload_of (c : cachedPoints.t) : list byte * string * string :=
  (cachedPoints.Buf c, cachedPoints.Query c, cachedPoints.Auth c).

(** [demo_admitted] after one turn of the loop: the first record has
    become an (empty) cached batch, the second still waits. *)
Definition demo_taken_one : retryBuffer () :=
  set_cachedItems
    (set_itemChan demo_buffer
       {| chan_cap := Z.to_nat 10000;
          chan_buf := [batchPoints.mk "db=x" "" demo_B] |})
    [cachedPoints.mk "db=x" "" [] 0 0].

(** The reader the write handler reads the points from: the body, or, for
    a gzip-encoded request, the decoder made from it. *)
Definition body_read_by (CanonicalMIMEHeaderKey : string → string)
    (gzip_NewReader : reader → option reader) (r : Request.t) (body : reader) : Prop :=
  (Header_Get CanonicalMIMEHeaderKey (Request.Header r) "Content-Encoding" ≠ "gzip"
   ∧ body = Request.Body r)
  ∨ (Header_Get CanonicalMIMEHeaderKey (Request.Header r) "Content-Encoding" = "gzip"
     ∧ gzip_NewReader (Request.Body r) = Some body).

(** *** Further concrete inputs *)

(** A parser like [demo_Parse] that refuses a line without a space. *)
Definition strict_Parse (buf : list byte) (start : Z) (precision : string)
  : option (list string) :=
  match first_line (skip_nul buf) with
  | [] => Some []
  | line => if existsb (Byte.eqb x20) line
            then Some [String.string_of_list_byte line] else None
  end.

Definition strict_serveWrite (h : HTTP) (r : Request.t) : served :=
  serveWrite demo_canonical demo_Quote demo_Encode string strict_Parse
    demo_PrecisionString demo_gzip 0 h new_ResponseWriter r.

Definition plain_body (text : string) : reader :=
  {| r_data := String.list_byte_of_string text; r_err := None |}.

(** GET /write?db=x *)
Definition demo_get_write : Request.t :=
  Request.mk "GET" "/write" {[ "db" := ["x"] ]} ∅ (plain_body demo_line).

(** POST /write?precision=s *)
Definition demo_write_no_db : Request.t :=
  Request.mk "POST" "/write" {[ "precision" := ["s"] ]} ∅ (plain_body demo_line).

(** POST /write?db=x with a body that is no line of the protocol. *)
Definition demo_write_garbage : Request.t :=
  Request.mk "POST" "/write" {[ "db" := ["x"] ]} ∅ (plain_body "garbage").

(** POST /write?db=x that announces gzip and sends plain text. *)
Definition demo_write_not_gzip : Request.t :=
  Request.mk "POST" "/write" {[ "db" := ["x"] ]}
    {[ "Content-Encoding" := ["gzip"] ]} (plain_body demo_line).

(** Two write backends and the default retention policy weekly. *)
Definition two_writers_weekly : HTTP :=
  {| addr := ":9096"; relay_name := "relay"; schema := "http"; cert := "";
     rp := "weekly"; closing := 0;
     backends := [demo_backend "b1"; demo_backend "b2"]; queries := [] |}.

(** What [two_writers_weekly] hands its first backend for [demo_write]. *)
Definition demo_forwarded : posted :=
  {| to := demo_backend "b1";
     post_body := getBuf ++ String.list_byte_of_string demo_line ++ [x0a];
     post_query := demo_Encode {[ "db" := ["x"]; "precision" := ["s"]; "rp" := ["weekly"] ]};
     post_auth := "" |}.

Definition no_backends : HTTP := demo_relay [] [].
Definition only_down : HTTP := demo_relay [] [demo_backend "down"].
Definition down_then_up : HTTP :=
  demo_relay [] [demo_backend "down"; demo_backend "up"].

(** What [up_then_down] posts to its first backend for [demo_drop]. *)
Definition demo_forwarded_query : posted :=
  {| to := demo_backend "up"; post_body := [];
     post_query := demo_Encode (Request.URL_Query demo_drop); post_auth := "" |}.

(** The backend [newHTTPBackend] makes of [demo_output_cfg]. *)
Definition demo_output_backend : httpBackend :=
  {| backend_poster :=
       RetryBuffer
         (newRetryBuffer 1048576 524288 (10 * time.Second)
            (SimplePoster (newSimplePoster "https://db1:8086/write"
                             (10 * time.Second) false)));
     name := "w1" |}.

(** A backend that answers every write with a 400. *)
Definition rejecting : nat → list byte → string → string → post_result :=
  λ _ _ _ _, PostOk {| Headers := ∅; StatusCode := StatusBadRequest; Body := [] |}.

(** Two batches under two keys, both created at time 0. *)
Definition demo_two_cached : retryBuffer () :=
  set_cachedItems demo_buffer
    [cachedPoints.mk "db=x" "" demo_A 6 0; cachedPoints.mk "db=y" "" demo_B 6 0].

(** POST /write?db=x whose connection breaks while the body is read. *)
Definition demo_write_broken : Request.t :=
  Request.mk "POST" "/write" {[ "db" := ["x"] ]} ∅
    {| r_data := String.list_byte_of_string "cpu val"; r_err := Some "connection reset" |}.
(** ** Proofs about the retry buffer *)

Lemma wrap64_small (z : Z) : (0 ≤ z ≤ maxInt)%Z → wrap64 z = z.
Proof.
  unfold wrap64, maxInt. intros Hz.
  rewrite Z.mod_small; lia.
Qed.

Lemma len_nonneg (b : list byte) : (0 ≤ len b)%Z.
Proof. unfold len. lia. Qed.

Lemma Buffer_Write_Done (b data b' : list byte) :
  Buffer_Write b data = Done b' →
  b' = b ++ data ∧ (len b + len data ≤ maxInt)%Z.
Proof.
  unfold Buffer_Write. destruct (len b + len data >? maxInt)%Z eqn:E; [done|].
  intros [= <-]. split; [done|]. lia.
Qed.

Lemma addToCache_range_Some (items items' : list cachedPoints.t) points :
  addToCache_range items points = Some (Done items') →
  Forall size_ok items →
  Forall size_ok items' ∧ batch_key <$> items' = batch_key <$> items.
Proof.
  revert items'. induction items as [|c rest IH]; intros items' Hrun Hok; [done|].
  simpl in Hrun. apply Forall_cons in Hok as [Hc Hrest].
  case_decide as Hkey.
  - destruct (Buffer_Write _ _) as [buf| |] eqn:Hw; simplify_eq/=.
    apply Buffer_Write_Done in Hw as [-> Hle]. split; [|done].
    constructor; [|done]. unfold size_ok in *. simpl.
    rewrite Hc. unfold len in *. rewrite length_app.
    rewrite wrap64_small; lia.
  - destruct (addToCache_range rest points) as [[items1| |]|] eqn:Hrec;
      simplify_eq/=.
    destruct (IH _ eq_refl Hrest) as [Hok1 Hkeys]. split.
    + by constructor.
    + by rewrite Hkeys.
Qed.

Lemma addToCache_range_None (items : list cachedPoints.t) points :
  addToCache_range items points = None →
  (batchPoints.Query points, batchPoints.Auth points) ∉ batch_key <$> items.
Proof.
  induction items as [|c rest IH]; simpl; intros Hrun.
  - apply not_elem_of_nil.
  - case_decide as Hkey; [done|].
    destruct (addToCache_range rest points) as [o|] eqn:Hrec; [done|].
    rewrite not_elem_of_cons. split; [|by apply IH].
    unfold batch_key. intros [= HQ HA]. apply Hkey. by split.
Qed.

Lemma addToCache_ok {P} clock (r r' : retryBuffer P) w w' points :
  addToCache clock r w points = Done (r', w') →
  cache_ok (cachedItems r) → cache_ok (cachedItems r').
Proof.
  unfold addToCache. intros Hrun [Hsz Hnd].
  destruct (addToCache_range (cachedItems r) points) as [[items| |]|] eqn:Hrange;
    simplify_eq/=.
  - destruct (addToCache_range_Some _ _ _ Hrange Hsz) as [Hsz' Hkeys].
    split; [done|]. by rewrite Hkeys.
  - apply addToCache_range_None in Hrange. split.
    + apply Forall_app. split; [done|]. by repeat constructor.
    + rewrite fmap_app. apply NoDup_app. split; [done|]. split.
      * intros k Hk Hin. apply list_elem_of_singleton in Hin. by subst k.
      * apply NoDup_singleton.
Qed.

(** Whatever the scan leaves in [r.cachedItems] was there before it, in
    the same order. *)
Lemma scan_sublist {P} reply clock fuel (r : retryBuffer P) todo :
  ∀ index arr m w items w',
    scan reply clock fuel r todo index arr m w = Done (items, w') →
    m ≤ length arr →
    items `sublist_of` take m arr.
Proof.
  induction todo as [|todo IH]; intros index arr m w items w' Hrun Hm; simpl in Hrun.
  - by simplify_eq.
  - destruct (arr !! index) as [cached|] eqn:Hidx; [|done].
    destruct (due _ _ _).
    + case_decide as Hle; [|done].
      destruct (postToInfluxDB _ _ _ _ _ _ _) as [w1| |] eqn:Hpost; simplify_eq/=.
      apply IH in Hrun.
      * etrans; [exact Hrun|].
        assert (take (m - 1)
                  (take index arr ++ drop (index + 1) (take m arr) ++ drop (m - 1) arr)
                = delete index (take m arr)) as ->.
        { rewrite delete_take_drop, take_take, Nat.min_l by lia.
          rewrite app_assoc, take_app_length'; [by rewrite Nat.add_1_r|].
          rewrite length_app, length_take, length_drop, length_take. lia. }
        apply sublist_delete.
      * rewrite !length_app, length_take, !length_drop, length_take. lia.
    + apply IH in Hrun; done.
Qed.

Lemma cache_ok_sublist (items items' : list cachedPoints.t) :
  items' `sublist_of` items → cache_ok items → cache_ok items'.
Proof.
  intros Hsub [Hsz Hnd]. split.
  - rewrite Forall_forall in Hsz |- *. intros c Hc. apply Hsz.
    by eapply sublist_subseteq.
  - eapply sublist_NoDup; [exact Hnd|]. by apply fmap_sublist.
Qed.

Lemma run_iteration_ok {P} reply clock fuel (r r' : retryBuffer P) w w' :
  run_iteration reply clock fuel r w = Done (r', w') →
  cache_ok (cachedItems r) → cache_ok (cachedItems r').
Proof.
  unfold run_iteration. intros Hrun Hok.
  destruct (chan_buf (itemChan r)) as [|points rest] eqn:Hchan; simpl in Hrun.
  - destruct (scan _ _ _ _ _ _ _ _ _) as [[items w1]| |] eqn:Hscan; simplify_eq/=.
    apply scan_sublist in Hscan; [|done].
    rewrite firstn_all in Hscan. by eapply cache_ok_sublist.
  - destruct (addToCache _ _ _ _) as [[r1 w1]| |] eqn:Hadd; simplify_eq/=.
    apply addToCache_ok in Hadd; [|done].
    destruct (scan _ _ _ _ _ _ _ _ _) as [[items w2]| |] eqn:Hscan; simplify_eq/=.
    apply scan_sublist in Hscan; [|done].
    rewrite firstn_all in Hscan. by eapply cache_ok_sublist.
Qed.

Lemma retryBuffer_post_cachedItems {P} (r r' : retryBuffer P) buf query auth res :
  retryBuffer_post r buf query auth = Returns (r', res) →
  cachedItems r' = cachedItems r.
Proof.
  unfold retryBuffer_post. destruct (chan_send _ _); [|done]. by intros [= <- _].
Qed.

(** C8. In every state the processing loop can reach, after any sequence
    of admissions and flush removals, the BufSize field of each cached
    batch equals the length of its accumulator, and no two cached batches
    of the buffer have the same (query, auth) key. *)
Theorem cachedItems_invariant {P} reply clock (r : retryBuffer P) (w : world) :
  reachable reply clock r w →
  (∀ c, c ∈ cachedItems r → cachedPoints.BufSize c = len (cachedPoints.Buf c))
  ∧ (∀ i j ci cj,
       cachedItems r !! i = Some ci → cachedItems r !! j = Some cj →
       batch_key ci = batch_key cj → i = j).
Proof.
  intros Hreach.
  assert (cache_ok (cachedItems r)) as [Hsz Hnd].
  { induction Hreach as [size batch max po|r w buf query auth r' res _ IH Hpost
                         |r w fuel r' w' _ IH Hrun].
    - split; simpl; constructor.
    - by rewrite (retryBuffer_post_cachedItems _ _ _ _ _ _ Hpost).
    - by eapply run_iteration_ok. }
  split.
  - by apply Forall_forall.
  - intros i j ci cj Hi Hj Hkey.
    eapply NoDup_lookup; [exact Hnd| |].
    + rewrite list_lookup_fmap, Hi. reflexivity.
    + rewrite list_lookup_fmap, Hj. simpl. by rewrite Hkey.
Qed.

Lemma demo_cached_reachable :
  reachable accepting (clock_at 0) demo_cached
    {| n_post := 0; n_now := 3; trace := [] |}.
Proof.
  eapply (reach_run _ _ _ _ 1).
  - eapply (reach_run _ _ _ _ 1).
    + eapply (reach_post _ _ _ _ demo_B "db=x" "").
      * eapply (reach_post _ _ _ _ demo_A "db=x" "").
        -- apply (reach_new _ _ 1048576 524288 (10 * time.Second) ())%Z.
        -- vm_compute. reflexivity.
      * vm_compute. reflexivity.
    + vm_compute. reflexivity.
  - vm_compute. reflexivity.
Defined.

Lemma cachedItems_invariant_witness :
  (∀ c, c ∈ cachedItems demo_cached →
        cachedPoints.BufSize c = len (cachedPoints.Buf c))
  ∧ (∀ i j ci cj,
       cachedItems demo_cached !! i = Some ci →
       cachedItems demo_cached !! j = Some cj →
       batch_key ci = batch_key cj → i = j).
Proof.
  exact (cachedItems_invariant accepting (clock_at 0) demo_cached _
           demo_cached_reachable).
Defined.

(** Two admissions under one key, starting from a cache without that key:
    the batch that the first one creates starts empty, and only the second
    one's bytes are accumulated. *)
Lemma addToCache_twice {P} clock (r : retryBuffer P) w query auth d1 d2 :
  (query, auth) ∉ batch_key <$> cachedItems r →
  (len d2 ≤ maxInt)%Z →
  ∃ r1 w1 r2,
    addToCache clock r w (batchPoints.mk query auth d1) = Done (r1, w1)
    ∧ addToCache clock r1 w1 (batchPoints.mk query auth d2) = Done (r2, w1)
    ∧ cachedItems r2
      = cachedItems r ++ [cachedPoints.mk query auth d2 (len d2) (clock (n_now w))].
Proof.
  intros Hfresh Hlen.
  assert (∀ d, addToCache_range (cachedItems r) (batchPoints.mk query auth d) = None)
    as Hnone.
  { intros d. induction (cachedItems r) as [|c rest IH]; [done|]. simpl.
    rewrite fmap_cons, not_elem_of_cons in Hfresh. destruct Hfresh as [Hc Hrest].
    case_decide as Hkey.
    - destruct Hkey as [HA HQ]. exfalso. apply Hc. unfold batch_key. by rewrite HA, HQ.
    - by rewrite IH. }
  assert (∀ c, addToCache_range (cachedItems r ++ [cachedPoints.mk query auth [] 0 c])
                 (batchPoints.mk query auth d2)
               = Some (Done (cachedItems r ++ [cachedPoints.mk query auth d2 (len d2) c])))
    as Hhit.
  { intros c. specialize (Hnone d2). revert Hnone.
    induction (cachedItems r) as [|c0 rest IH]; simpl.
    - intros _. rewrite decide_True by done. unfold Buffer_Write. simpl.
      change (len [] + len d2)%Z with (len d2). rewrite Z.add_0_l.
      destruct (len d2 >? maxInt)%Z eqn:E; [lia|]. simpl.
      rewrite wrap64_small; [done|]. pose proof (len_nonneg d2). lia.
    - rewrite fmap_cons, not_elem_of_cons in Hfresh. destruct Hfresh as [Hc0 Hfresh].
      case_decide as Hkey; [done|].
      destruct (addToCache_range rest _) eqn:Hrest; [done|].
      intros _. by rewrite (IH Hfresh eq_refl). }
  eexists _, _, _. unfold addToCache. rewrite Hnone. split; [reflexivity|].
  simpl. rewrite Hhit. simpl. split; reflexivity.
Qed.

(** C2 (the code against the claim). Two admissions with the same key,
    [demo_A] then [demo_B], reach the buffer before any flush; the
    flush that follows posts [demo_B] alone: the bytes of the admission
    that created the cached batch are not in its accumulator. *)
Theorem flush_omits_first_admission :
  ∃ r1 r2 w1 w2 w3,
    retryBuffer_post demo_buffer demo_A "db=x" "" = Returns (r1, accepted)
    ∧ retryBuffer_post r1 demo_B "db=x" "" = Returns (demo_admitted, accepted)
    ∧ run_iteration accepting demo_clock 1 demo_admitted world0 = Done (r2, w1)
    ∧ run_iteration accepting demo_clock 1 r2 w1 = Done (demo_cached, w2)
    ∧ run_iteration accepting demo_clock 1 demo_cached w2 = Done (demo_buffer, w3)
    ∧ trace w3 = [EvSleep (10 * time.Millisecond); EvPost demo_B "db=x" ""; EvLogSend 6]
    ∧ demo_B ≠ demo_A ++ demo_B.
Proof.
  eexists _, _, _, _, _.
  split; [vm_compute; reflexivity|].
  split; [vm_compute; reflexivity|].
  split; [vm_compute; reflexivity|].
  split; [vm_compute; reflexivity|].
  split; [vm_compute; reflexivity|].
  split; [vm_compute; reflexivity|].
  discriminate.
Qed.

(** With room in the channel, [post] enqueues the record and answers 204
    with a nil error. *)
Lemma retryBuffer_post_room {P} (r : retryBuffer P) buf query auth :
  length (chan_buf (itemChan r)) < chan_cap (itemChan r) →
  retryBuffer_post r buf query auth
  = Returns (set_itemChan r
               {| chan_cap := chan_cap (itemChan r);
                  chan_buf := chan_buf (itemChan r) ++ [batchPoints.mk query auth buf] |},
             accepted).
Proof.
  intros Hroom. unfold retryBuffer_post, chan_send. by rewrite decide_True.
Qed.

(** C3 (the code against the claim). When the admission channel is full,
    [post] does not return at all: the send parks the caller, which sees
    neither a 204 nor a drop. *)
Theorem retryBuffer_post_full_blocks {P} (r : retryBuffer P) buf query auth :
  chan_cap (itemChan r) ≤ length (chan_buf (itemChan r)) →
  retryBuffer_post r buf query auth = Blocked.
Proof.
  intros Hfull. unfold retryBuffer_post, chan_send. rewrite decide_False; [done|lia].
Qed.

Lemma retryBuffer_post_full_blocks_witness :
  chan_cap (itemChan demo_full) ≤ length (chan_buf (itemChan demo_full))
  ∧ retryBuffer_post demo_full demo_B "db=x" "" = Blocked.
Proof.
  assert (chan_cap (itemChan demo_full) ≤ length (chan_buf (itemChan demo_full)))
    as Hfull.
  { unfold demo_full, set_itemChan. cbn [itemChan chan_cap chan_buf].
    rewrite length_replicate. apply Nat.le_refl. }
  split; [exact Hfull|].
  exact (retryBuffer_post_full_blocks demo_full demo_B "db=x" "" Hfull).
Defined.

(** *** The flush *)

Lemma retryInitial_pos : (0 < retryInitial)%Z.
Proof. reflexivity. Qed.

Lemma retryInitial_pow_pos (i : nat) : (0 < retryInitial * 2 ^ Z.of_nat i)%Z.
Proof. pose proof retryInitial_pos. apply Z.mul_pos_pos; [done|]. apply Z.pow_pos_nonneg; lia. Qed.

Lemma retryInitial_pow_S (i : nat) :
  (retryInitial * 2 ^ Z.of_nat (S i) = 2 * (retryInitial * 2 ^ Z.of_nat i))%Z.
Proof. rewrite Nat2Z.inj_succ, Z.pow_succ_r by lia. ring. Qed.

Lemma retries_S data query auth maxI (i n : nat) :
  retries data query auth maxI i (S n)
  = [EvPost data query auth; EvSleep (backoff maxI (S i))]
    ++ retries data query auth maxI (S i) n.
Proof. reflexivity. Qed.

Section flush.
Context {P : Type} (reply : nat → list byte → string → string → post_result).
Context (r : retryBuffer P) (data : list byte) (query auth : string).
Hypothesis Hmult : multiplier r = retryMultiplier.
Hypothesis Hmax : (maxInterval r ≤ 2 ^ 62)%Z.

(** The loop from its [i]-th failure on: [n] more failed posts, each below
    the cap, then the post that ends the flush. *)
Lemma postToInfluxDB_loop_trace (n : nat) :
  ∀ fuel i interval w,
    n < fuel →
    Z.min interval (maxInterval r) = backoff (maxInterval r) i →
    (∀ j, j < n → delivered (reply (n_post w + j) data query auth) = false) →
    (∀ j, j < n → (retryInitial * 2 ^ Z.of_nat (i + j) < maxInterval r)%Z) →
    delivered (reply (n_post w + n) data query auth) = true
    ∨ (maxInterval r ≤ retryInitial * 2 ^ Z.of_nat (i + n))%Z →
    postToInfluxDB_loop reply fuel r data query auth interval w
    = Done {| n_post := n_post w + S n; n_now := n_now w;
              trace := trace w ++ retries data query auth (maxInterval r) i n
                       ++ [EvPost data query auth;
                           flush_end data (reply (n_post w + n) data query auth)] |}.
Proof.
  induction n as [|n IH]; intros fuel i interval w Hfuel Hint Hfail Hsmall Hlast.
  - destruct fuel as [|fuel]; [lia|]. simpl.
    rewrite !Nat.add_0_r in *. unfold flush_end.
    destruct (delivered (reply (n_post w) data query auth)) eqn:Hd.
    + unfold emit, tick_post; simpl. f_equal. f_equal; [lia|].
      by rewrite <- app_assoc.
    + destruct Hlast as [|Hcap]; [done|].
      assert (maxInterval r ≤ interval)%Z as Hge.
      { unfold backoff in Hint. lia. }
      destruct (interval >=? maxInterval r)%Z eqn:E; [|lia].
      unfold emit, tick_post; simpl. f_equal. f_equal; [lia|].
      by rewrite <- app_assoc.
  - destruct fuel as [|fuel]; [lia|]. cbn [postToInfluxDB_loop].
    pose proof (Hfail 0 ltac:(lia)) as Hf0. rewrite Nat.add_0_r in Hf0. rewrite Hf0.
    pose proof (Hsmall 0 ltac:(lia)) as Hs0. rewrite Nat.add_0_r in Hs0.
    pose proof (retryInitial_pow_pos i) as Hpos.
    assert (interval = retryInitial * 2 ^ Z.of_nat i)%Z as Hiv.
    { unfold backoff in Hint. lia. }
    destruct (interval >=? maxInterval r)%Z eqn:E1; [lia|].
    destruct (interval <=? maxInterval r)%Z eqn:E2; [|lia].
    rewrite Hmult. unfold retryMultiplier.
    rewrite (wrap64_small (interval * 2)) by (unfold maxInt; lia).
    set (interval' := if (interval * 2 >? maxInterval r)%Z then maxInterval r
                      else (interval * 2)%Z).
    assert (interval' = backoff (maxInterval r) (S i)) as Hiv'.
    { unfold interval', backoff. rewrite retryInitial_pow_S, <- Hiv.
      destruct (interval * 2 >? maxInterval r)%Z eqn:E3; lia. }
    rewrite (IH fuel (S i) interval'); cbn [n_post n_now trace emit tick_post].
    + f_equal. f_equal; [lia|]. rewrite retries_S, Hiv'.
      replace (S (n_post w) + n) with (n_post w + S n) by lia.
      rewrite <- !app_assoc. reflexivity.
    + lia.
    + rewrite Hiv'. unfold backoff. lia.
    + intros j Hj. replace (S (n_post w) + j) with (n_post w + S j) by lia.
      apply Hfail. lia.
    + intros j Hj. replace (S i + j) with (i + S j) by lia. apply Hsmall. lia.
    + replace (S (n_post w) + n) with (n_post w + S n) by lia.
      replace (S i + n) with (i + S n) by lia. exact Hlast.
Qed.

(** Searching for the post that ends the flush: within [k] more failures
    the uncapped interval passes the cap. *)
Lemma flush_end_exists (w : world) (k : nat) :
  ∀ i,
    (maxInterval r ≤ retryInitial * 2 ^ Z.of_nat (i + k))%Z →
    (∀ j, j < i → delivered (reply (n_post w + j) data query auth) = false
                  ∧ (retryInitial * 2 ^ Z.of_nat j < maxInterval r)%Z) →
    ∃ n, n ≤ i + k
      ∧ (∀ j, j < n → delivered (reply (n_post w + j) data query auth) = false
                      ∧ (retryInitial * 2 ^ Z.of_nat j < maxInterval r)%Z)
      ∧ (delivered (reply (n_post w + n) data query auth) = true
         ∨ (maxInterval r ≤ retryInitial * 2 ^ Z.of_nat n)%Z).
Proof.
  induction k as [|k IH]; intros i Hcap Hprefix.
  - exists i. rewrite Nat.add_0_r in Hcap. split; [lia|]. split; [done|]. by right.
  - destruct (delivered (reply (n_post w + i) data query auth)) eqn:Hd.
    { exists i. split; [lia|]. split; [done|]. by left. }
    destruct (decide (retryInitial * 2 ^ Z.of_nat i < maxInterval r)%Z) as [Hlt|Hge].
    + destruct (IH (S i)) as (n & Hn & Hpre & Hend).
      * by replace (S i + k) with (i + S k) by lia.
      * intros j Hj. destruct (decide (j = i)) as [->|Hne]; [done|].
        apply Hprefix. lia.
      * exists n. split; [lia|]. done.
    + exists i. split; [lia|]. split; [done|]. right. lia.
Qed.

End flush.

(** C4, as the code has it. A flush ends at its first post that either is
    delivered (no transport error and a status outside 5xx; it logs the
    send) or fails when the interval in force has already reached
    maxInterval (it logs the data as lost).  Every earlier failure doubles
    the interval, caps it at maxInterval, and sleeps the new interval
    before the next post.  Such a last post exists among the first 35, so
    the flush returns. *)
Theorem postToInfluxDB_backoff {P} reply (r : retryBuffer P) data query auth w :
  initialInterval r = retryInitial →
  multiplier r = retryMultiplier →
  (maxInterval r ≤ 2 ^ 62)%Z →
  ∃ n, n ≤ 34
    ∧ (∀ j, j < n → delivered (reply (n_post w + j) data query auth) = false
                    ∧ (retryInitial * 2 ^ Z.of_nat j < maxInterval r)%Z)
    ∧ (delivered (reply (n_post w + n) data query auth) = true
       ∨ (maxInterval r ≤ retryInitial * 2 ^ Z.of_nat n)%Z)
    ∧ ∀ fuel, n < fuel →
        postToInfluxDB reply fuel r data query auth w
        = Done {| n_post := n_post w + S n; n_now := n_now w;
                  trace := trace w
                    ++ flush_trace data query auth (maxInterval r) n
                         (flush_end data (reply (n_post w + n) data query auth)) |}.
Proof.
  intros Hinit Hmult Hmax.
  destruct (flush_end_exists reply r data query auth w 34 0) as (n & Hn & Hpre & Hend).
  - etrans; [exact Hmax|]. vm_compute. discriminate.
  - intros j Hj. lia.
  - exists n. split; [lia|]. split; [done|]. split; [done|].
    intros fuel Hfuel. unfold postToInfluxDB, flush_trace.
    apply postToInfluxDB_loop_trace; try done.
    + rewrite Hinit. unfold backoff. change (2 ^ Z.of_nat 0)%Z with 1%Z.
      by rewrite Z.mul_1_r.
    + intros j Hj. by apply Hpre.
    + intros j Hj. by apply Hpre.
Qed.

Lemma postToInfluxDB_backoff_witness :
  ∃ n, n ≤ 34
    ∧ (∀ j, j < n → delivered (refusing (0 + j) demo_A "db=x" "") = false
                    ∧ (retryInitial * 2 ^ Z.of_nat j < 10 * time.Second)%Z)
    ∧ (delivered (refusing (0 + n) demo_A "db=x" "") = true
       ∨ (10 * time.Second ≤ retryInitial * 2 ^ Z.of_nat n)%Z)
    ∧ ∀ fuel, n < fuel →
        postToInfluxDB refusing fuel demo_buffer demo_A "db=x" "" world0
        = Done {| n_post := 0 + S n; n_now := 0;
                  trace := []
                    ++ flush_trace demo_A "db=x" "" (10 * time.Second) n
                         (flush_end demo_A (refusing (0 + n) demo_A "db=x" "")) |}.
Proof.
  apply (postToInfluxDB_backoff refusing demo_buffer demo_A "db=x" "" world0).
  - reflexivity.
  - reflexivity.
  - vm_compute. discriminate.
Defined.

(** C4 as stated fails. With maxInterval = 1 s and a backend that always
    fails, the interval that would follow the first failure (2 x 500 ms,
    capped) already equals maxInterval; the claim has the flush sleep the
    current 500 ms and give up there.  The code sleeps the doubled
    interval, 1 s, posts again, and gives up only at the second failure. *)
Lemma postToInfluxDB_retries_at_cap :
  postToInfluxDB refusing 3
    (newRetryBuffer 1048576 524288 time.Second ()) demo_A "db=x" "" world0
  = Done {| n_post := 2; n_now := 0;
            trace := [EvPost demo_A "db=x" ""; EvSleep time.Second;
                      EvPost demo_A "db=x" ""; EvLogLost demo_A] |}
  ∧ (time.Second ≤ backoff time.Second 1)%Z
  ∧ retryInitial ≠ time.Second.
Proof.
  split; [vm_compute; reflexivity|]. split; [vm_compute; discriminate|].
  vm_compute. discriminate.
Qed.

(** *** The scan on small caches *)

(** Three batches under three keys, the first of them due: it is flushed
    and removed, and the scan then looks at the third batch twice and at
    the second not at all. *)
Example scan_skips_next :
  ∃ w, run_iteration refusing
         (λ k, if decide (k = 0) then (20 * time.Second)%Z else 0%Z) 40
         (set_cachedItems demo_buffer
            [cachedPoints.mk "db=x" "" demo_A 6 0;
             cachedPoints.mk "db=y" "" demo_B 6 0;
             cachedPoints.mk "db=z" "" demo_B 6 0])
         {| n_post := 0; n_now := 0; trace := [] |}
       = Done (set_cachedItems demo_buffer
                 [cachedPoints.mk "db=y" "" demo_B 6 0;
                  cachedPoints.mk "db=z" "" demo_B 6 0], w)
       ∧ n_now w = 3.
Proof. eexists. split; vm_compute; reflexivity. Qed.

(** Two batches, both due: after the first removal the range still visits
    the old second slot, whose removal slices past the shortened list. *)
Example scan_two_due_panics :
  run_iteration refusing (clock_at (20 * time.Second)) 40
    (set_cachedItems demo_buffer
       [cachedPoints.mk "db=x" "" demo_A 6 0;
        cachedPoints.mk "db=y" "" demo_B 6 0])
    {| n_post := 0; n_now := 0; trace := [] |}
  = Panicked "slice bounds out of range".
Proof. vm_compute. reflexivity. Qed.

(** ** Proofs about the string functions *)

Ltac ascii_cases c :=
  destruct c as [[] [] [] [] [] [] [] []]; try reflexivity; try discriminate.





Lemma whitespace_byte (c : ascii) :
  in_cutset whitespace c = true →
  (ascii_code c <? 128)%N = true ∧ upper_byte c = c.
Proof. ascii_cases c; intros _; split; reflexivity. Qed.




Section ToUpper_facts.
Context (unicode_ToUpper : string → string).



Lemma whitespace_only (q : string) :
  all_in_cutset whitespace q = true →
  isASCII q = true ∧ map_bytes upper_byte q = q ∧ TrimLeft q whitespace = EmptyString.
Proof.
  induction q as [|c q IH]; [done|]. simpl. intros [Hc Hq]%andb_true_iff.
  destruct (IH Hq) as (Hascii & Hup & Htrim).
  destruct (whitespace_byte c Hc) as [Hlt Hupc].
  rewrite Hlt, Hascii, Hupc, Hup, Hc. done.
Qed.



End ToUpper_facts.

Lemma Split_nonempty (s : string) (sep : ascii) : Split s sep ≠ [].
Proof.
  induction s as [|c s IH]; [done|]. simpl.
  case_bool_decide; [done|]. by destruct (Split s sep).
Qed.

Lemma first_token_with_q unicode_ToUpper (r : Request.t) (q : string) :
  first_token unicode_ToUpper (with_q r q) = token_of unicode_ToUpper q.
Proof.
  unfold first_token, with_q, Values_Get, Values_Set. simpl.
  by rewrite lookup_insert_eq.
Qed.

(** ** Proofs about the HTTP relay *)

(** *** Construction of the backends *)

Lemma build_Forall2 {C} (make : C → httpBackend + string) (cfgs : list C) :
  ∀ bs, build make cfgs = inl bs → Forall2 (λ c b, make c = inl b) cfgs bs.
Proof.
  induction cfgs as [|c rest IH]; simpl; intros bs Hb.
  - simplify_eq. constructor.
  - destruct (make c) as [b|err] eqn:Hc; [|done].
    destruct (build make rest) as [bs'|err] eqn:Hrest; [|done].
    simplify_eq. constructor; [done|]. by apply IH.
Qed.

Lemma newHttpQueryBackend_poster ParseDuration cfg b :
  newHttpQueryBackend ParseDuration cfg = inl b →
  ∃ timeout,
    backend_poster b
    = SimplePoster (newSimplePoster (HTTPQueryConfig.Location cfg) timeout true).
Proof.
  unfold newHttpQueryBackend. intros Hb.
  destruct (if decide (HTTPQueryConfig.Timeout cfg = "") then _ else _)
    as [timeout|err]; [|done].
  simplify_eq. by exists timeout.
Qed.

Lemma newHTTPBackend_skipTLS ParseDuration cfg b :
  newHTTPBackend ParseDuration cfg = inl b →
  skipTLS b = HTTPOutputConfig.SkipTLSVerification cfg.
Proof.
  unfold newHTTPBackend. intros Hb.
  destruct (if decide (HTTPOutputConfig.Timeout cfg = "") then _ else _)
    as [timeout|err]; [|done].
  destruct (HTTPOutputConfig.BufferSizeMB cfg >? 0)%Z.
  - destruct (if decide (HTTPOutputConfig.MaxDelayInterval cfg = "") then _ else _)
      as [max|err]; [|done].
    by simplify_eq.
  - by simplify_eq.
Qed.

(** C9. Every query backend is built with a poster that skips the
    verification of the TLS certificate, whatever its configuration says
    (it is the constant true); a write backend's poster, buffered or not,
    skips it exactly when its configuration asks for that.  The same holds
    of every backend of a relay that [NewHTTP] builds. *)
Theorem query_posters_skip_TLS_verification (ParseDuration : string → Z + string) :
  (∀ cfg b, newHttpQueryBackend ParseDuration cfg = inl b → skipTLS b = true)
  ∧ (∀ cfg b, newHTTPBackend ParseDuration cfg = inl b →
       skipTLS b = HTTPOutputConfig.SkipTLSVerification cfg)
  ∧ (∀ cfg h, NewHTTP ParseDuration cfg = inl h →
       (∀ q, q ∈ queries h → skipTLS q = true)
       ∧ Forall2 (λ c b, skipTLS b = HTTPOutputConfig.SkipTLSVerification c)
           (HTTPConfig.Outputs cfg) (backends h)).
Proof.
  assert (∀ cfg b, newHttpQueryBackend ParseDuration cfg = inl b → skipTLS b = true)
    as Hquery.
  { intros cfg b Hb. apply newHttpQueryBackend_poster in Hb as [timeout Hb].
    unfold skipTLS. by rewrite Hb. }
  split; [exact Hquery|]. split; [apply newHTTPBackend_skipTLS|].
  intros cfg h Hh. unfold NewHTTP in Hh.
  destruct (build _ (HTTPConfig.Outputs cfg)) as [bs|err] eqn:Hbs; [|done].
  destruct (build _ (HTTPConfig.Queries cfg)) as [qs|err] eqn:Hqs; [|done].
  simplify_eq. simpl. apply build_Forall2 in Hbs, Hqs. split.
  - assert (Forall (λ q, skipTLS q = true) qs) as Hall.
    { induction Hqs as [|c b cs qs' Hb _ IH]; constructor; [|exact IH].
      by eapply Hquery. }
    intros q Hq. rewrite Forall_forall in Hall. by apply Hall.
  - eapply Forall2_impl; [exact Hbs|]. intros c b. apply newHTTPBackend_skipTLS.
Qed.

Lemma query_posters_skip_TLS_verification_witness :
  (∀ b, newHttpQueryBackend demo_ParseDuration demo_query_cfg = inl b →
        skipTLS b = true)
  ∧ newHttpQueryBackend demo_ParseDuration demo_query_cfg
    = inl {| backend_poster :=
               SimplePoster (newSimplePoster "https://db1:8086/query"
                               (30 * time.Second) true);
             name := "q1" |}
  ∧ (∀ b, newHTTPBackend demo_ParseDuration demo_output_cfg = inl b →
          skipTLS b = false).
Proof.
  destruct (query_posters_skip_TLS_verification demo_ParseDuration)
    as (Hquery & Hwrite & _).
  split; [exact (Hquery demo_query_cfg)|].
  split; [vm_compute; reflexivity|].
  exact (Hwrite demo_output_cfg).
Defined.

(** *** The query handler *)

Section query_facts.
Context (unicode_ToUpper : string → string) (CanonicalMIMEHeaderKey : string → string).
Context (Quote : string → string) (Encode : Values → string).
Context (backend_post : httpBackend → list byte → string → string → post_result).
Context (random : nat).

Local Abbreviation first_token' := (first_token unicode_ToUpper).
Local Abbreviation Header_Get' := (Header_Get CanonicalMIMEHeaderKey).
Local Abbreviation Header_Set' := (Header_Set CanonicalMIMEHeaderKey).
Local Abbreviation jsonError' := (jsonError CanonicalMIMEHeaderKey Quote).
Local Abbreviation serveQuery' :=
  (serveQuery unicode_ToUpper CanonicalMIMEHeaderKey Quote Encode backend_post random).
Local Abbreviation all_node_request' :=
  (all_node_request CanonicalMIMEHeaderKey Encode backend_post).
Local Abbreviation single_node_request' :=
  (single_node_request CanonicalMIMEHeaderKey Quote Encode backend_post random).
Local Abbreviation error_request' := (error_request CanonicalMIMEHeaderKey Quote).
Local Abbreviation answer_to' := (answer_to CanonicalMIMEHeaderKey Encode backend_post).

Lemma serveQuery_single h w r :
  first_token' r ∈ single_node_tokens →
  serveQuery' h w r = single_node_request' h w r.
Proof.
  intros Ht. unfold serveQuery.
  by rewrite bool_decide_eq_true_2.
Qed.

Lemma serveQuery_all h w r :
  first_token' r ∈ all_node_tokens →
  serveQuery' h w r = all_node_request' h w r.
Proof.
  intros Ht. unfold serveQuery.
  rewrite bool_decide_eq_false_2.
  - by rewrite bool_decide_eq_true_2.
  - intros Hs. unfold all_node_tokens, single_node_tokens in *.
    apply list_elem_of_In in Ht, Hs. simpl in Ht, Hs. intuition congruence.
Qed.

Lemma serveQuery_error h w r :
  first_token' r ∉ single_node_tokens →
  first_token' r ∉ all_node_tokens →
  serveQuery' h w r = error_request' w r (first_token' r).
Proof.
  intros Hs Ha. unfold serveQuery.
  rewrite !bool_decide_eq_false_2 by done. by case_bool_decide.
Qed.

Lemma all_node_loop_last h r qs b :
  queries h = qs ++ [b] →
  all_node_loop CanonicalMIMEHeaderKey Encode backend_post h r = Some (answer_to' r b).
Proof.
  intros Hq. unfold all_node_loop. rewrite Hq, foldl_app. reflexivity.
Qed.

(** C5, as the code has it. In all-node routing with at least one query
    backend, every backend is posted to, in order, and the answer of the
    LAST backend alone decides the response: when its post succeeded the
    client gets status 200 and its body; when its post failed the client
    gets status 500 and no body, whatever the earlier backends answered.
    So the status is 500 exactly when the last backend's post fails. *)
Theorem all_node_answers_with_last_backend h r qs b :
  first_token' r ∈ all_node_tokens →
  queries h = qs ++ [b] →
  to <$> posts (serveQuery' h new_ResponseWriter r) = queries h
  ∧ panic (serveQuery' h new_ResponseWriter r) = None
  ∧ (∀ resp, answer_to' r b = PostOk resp →
       sent_status (response (serveQuery' h new_ResponseWriter r)) = StatusOK
       ∧ w_body (response (serveQuery' h new_ResponseWriter r)) = Body resp)
  ∧ (∀ err, answer_to' r b = PostErr err →
       w_body (response (serveQuery' h new_ResponseWriter r)) = [])
  ∧ (sent_status (response (serveQuery' h new_ResponseWriter r))
     = StatusInternalServerError
     ↔ ∃ err, answer_to' r b = PostErr err).
Proof.
  intros Ht Hq. rewrite (serveQuery_all _ _ _ Ht).
  unfold all_node_request. rewrite (all_node_loop_last _ _ _ _ Hq).
  assert (to <$> ((λ q, {| to := q; post_body := [];
                           post_query := Encode (Request.URL_Query r);
                           post_auth := Header_Get' (Request.Header r) "Authorization" |})
                  <$> queries h) = queries h) as Hposts.
  { rewrite <- list_fmap_compose. apply list_fmap_id. }
  destruct (answer_to' r b) as [resp|err] eqn:Hans; simpl.
  - split; [exact Hposts|]. split; [done|]. split; [by intros ? [= <-]|].
    split; [done|]. split; [done|]. by intros [? ?].
  - split; [exact Hposts|]. split; [done|]. split; [done|].
    split; [done|]. split; [by exists err|done].
Qed.

(** Copying headers touches neither the status nor the body. *)
Lemma foldl_Header_Set_rest (l : list (string * string)) :
  ∀ w, w_status (foldl (λ w kv, Header_Set' w kv.1 kv.2) w l) = w_status w
       ∧ w_body (foldl (λ w kv, Header_Set' w kv.1 kv.2) w l) = w_body w.
Proof.
  induction l as [|kv l IH]; intros w; [done|]. simpl.
  destruct (IH (Header_Set' w kv.1 kv.2)) as [-> ->]. done.
Qed.

Lemma foldl_Header_Set_other (l : list (string * string)) (K : string) :
  ∀ w, (∀ kv, kv ∈ l → CanonicalMIMEHeaderKey kv.1 ≠ K) →
       w_Header (foldl (λ w kv, Header_Set' w kv.1 kv.2) w l) !! K = w_Header w !! K.
Proof.
  induction l as [|kv l IH]; intros w Hother; [done|]. simpl.
  rewrite IH.
  - simpl. apply lookup_insert_ne. apply Hother. by left.
  - intros kv' Hin. apply Hother. by right.
Qed.

(** A header of the backend's answer reaches the client under its
    canonical name, provided no other header of the answer shares that
    canonical name. *)
Lemma foldl_Header_Set_lookup (l : list (string * string)) (k v : string) :
  ∀ w, NoDup l.*1 → (k, v) ∈ l →
       (∀ kv, kv ∈ l → CanonicalMIMEHeaderKey kv.1 = CanonicalMIMEHeaderKey k → kv.1 = k) →
       w_Header (foldl (λ w kv, Header_Set' w kv.1 kv.2) w l)
       !! CanonicalMIMEHeaderKey k = Some [v].
Proof.
  induction l as [|kv l IH]; intros w Hnd Hin Hinj.
  - by apply elem_of_nil in Hin.
  - rewrite fmap_cons in Hnd. apply NoDup_cons in Hnd as [Hfresh Hnd].
    simpl. apply elem_of_cons in Hin as [Heq|Hin]; [subst kv|].
    + rewrite foldl_Header_Set_other.
      * simpl. apply lookup_insert_eq.
      * intros kv' Hin' Heq. apply Hfresh. simpl.
        rewrite <- (Hinj kv') by (by right || done).
        apply list_elem_of_fmap. by exists kv'.
    + apply IH; [done|done|]. intros kv' Hin'. apply Hinj. by right.
Qed.

(** C10. On a single-node query whose backend post succeeds at the
    transport level, the client gets the backend's body and headers and
    status 200: the status code of the backend's answer is never read, so
    a 4xx or 5xx answer is passed on as a 200. *)
Theorem single_node_status_always_200 h r b resp :
  first_token' r ∈ single_node_tokens →
  queries h !! (random `mod` length (queries h)) = Some b →
  answer_to' r b = PostOk resp →
  sent_status (response (serveQuery' h new_ResponseWriter r)) = StatusOK
  ∧ w_status (response (serveQuery' h new_ResponseWriter r)) = Some 200%Z
  ∧ w_body (response (serveQuery' h new_ResponseWriter r)) = Body resp
  ∧ (∀ k v, Headers resp !! k = Some v →
       (∀ k', is_Some (Headers resp !! k') →
              CanonicalMIMEHeaderKey k' = CanonicalMIMEHeaderKey k → k' = k) →
       w_Header (response (serveQuery' h new_ResponseWriter r))
       !! CanonicalMIMEHeaderKey k = Some [v])
  ∧ to <$> posts (serveQuery' h new_ResponseWriter r) = [b]
  ∧ panic (serveQuery' h new_ResponseWriter r) = None.
Proof.
  intros Ht Hb Hans. rewrite (serveQuery_single _ _ _ Ht).
  unfold single_node_request.
  destruct (length (queries h)) as [|n] eqn:Hlen.
  { apply lookup_lt_Some in Hb. lia. }
  rewrite Hb. unfold answer_to in Hans. rewrite Hans. simpl.
  set (copy := foldl _ new_ResponseWriter (map_to_list (Headers resp))).
  destruct (foldl_Header_Set_rest (map_to_list (Headers resp)) new_ResponseWriter)
    as [Hst Hbody].
  fold copy in Hst, Hbody.
  unfold sent_status, Write, WriteHeader. rewrite Hst. simpl. rewrite Hbody. simpl.
  repeat split; try done.
  intros k v Hk Hinj. unfold copy. apply foldl_Header_Set_lookup.
  - apply NoDup_fst_map_to_list.
  - by apply elem_of_map_to_list.
  - intros [k' v'] Hin Heq. simpl in *. apply Hinj; [|done].
    apply elem_of_map_to_list in Hin. by exists v'.
Qed.

Lemma jsonError_fresh (code : Z) (message : string) :
  w_status (jsonError' new_ResponseWriter code message) = Some code
  ∧ w_body (jsonError' new_ResponseWriter code message)
    = String.list_byte_of_string (jsonError_data Quote message).
Proof. done. Qed.

Lemma single_node_targets h w r :
  to <$> posts (single_node_request' h w r)
  = match queries h !! (random `mod` length (queries h)) with
    | Some b => [b]
    | None => []
    end.
Proof.
  unfold single_node_request.
  destruct (length (queries h)) as [|n] eqn:Hlen.
  - apply length_zero_iff_nil in Hlen. by rewrite Hlen.
  - rewrite <- Hlen. destruct (queries h !! _) as [b|]; [|done].
    by destruct (backend_post _ _ _ _).
Qed.

Lemma all_node_targets h w r :
  to <$> posts (all_node_request' h w r) = queries h.
Proof.
  unfold all_node_request.
  assert (∀ l : list httpBackend,
            to <$> ((λ q, {| to := q; post_body := [];
                             post_query := Encode (Request.URL_Query r);
                             post_auth := Header_Get' (Request.Header r) "Authorization" |})
                    <$> l) = l) as Hposts.
  { intros l. rewrite <- list_fmap_compose. apply list_fmap_id. }
  destruct (all_node_loop _ _ _ _ _) as [[resp|err]|]; simpl; apply Hposts.
Qed.

(** Which backends are posted to depends on the first token only. *)
Lemma targets_by_token h w1 w2 r1 r2 :
  first_token' r1 = first_token' r2 →
  to <$> posts (serveQuery' h w1 r1) = to <$> posts (serveQuery' h w2 r2).
Proof.
  intros Ht. unfold serveQuery. rewrite Ht.
  repeat case_bool_decide; try done.
  - by rewrite !single_node_targets.
  - by rewrite !all_node_targets.
Qed.


End query_facts.

(** *** The write handler *)

Lemma Buffer_Write_fits (b data : list byte) :
  (len b + len data ≤ maxInt)%Z → Buffer_Write b data = Done (b ++ data).
Proof.
  intros Hfit. unfold Buffer_Write.
  destruct (len b + len data >? maxInt)%Z eqn:E; [lia|done].
Qed.

Lemma len_app (a b : list byte) : len (a ++ b) = (len a + len b)%Z.
Proof. unfold len. rewrite length_app. lia. Qed.

Lemma getBuf_length : length getBuf = 2048.
Proof. unfold getBuf. by rewrite length_replicate. Qed.

Lemma queryParams_of_precision h r :
  Values_Get (queryParams_of h r) "precision"
  = Values_Get (Request.URL_Query r) "precision".
Proof.
  unfold queryParams_of. destruct (_ && _); [|done].
  unfold Values_Get, Values_Set. by rewrite lookup_insert_ne.
Qed.

Section write_facts.
Context (CanonicalMIMEHeaderKey : string → string) (Quote : string → string).
Context (Encode : Values → string).
Context (Point : Type).
Context (ParsePointsWithPrecision : list byte → Z → string → option (list Point)).
Context (PrecisionString : Point → string → string).
Context (gzip_NewReader : reader → option reader) (now : Z).

Local Abbreviation Header_Get' := (Header_Get CanonicalMIMEHeaderKey).
Local Abbreviation serialized' := (serialized Point PrecisionString).
Local Abbreviation serveWrite' :=
  (serveWrite CanonicalMIMEHeaderKey Quote Encode Point ParsePointsWithPrecision
     PrecisionString gzip_NewReader now).
Local Abbreviation serveWrite_body' :=
  (serveWrite_body CanonicalMIMEHeaderKey Quote Encode Point ParsePointsWithPrecision
     PrecisionString now).

Lemma serialized_cons (pt : Point) (rest : list Point) (precision : string) :
  serialized' (pt :: rest) precision
  = String.list_byte_of_string (PrecisionString pt precision) ++ [x0a]
    ++ serialized' rest precision.
Proof. unfold serialized. simpl. by rewrite <- app_assoc. Qed.

Lemma write_points_fits (points : list Point) (precision : string) :
  ∀ outBuf,
    (len outBuf + len (serialized' points precision) ≤ maxInt)%Z →
    write_points Point PrecisionString outBuf points precision
    = Done (outBuf ++ serialized' points precision).
Proof.
  induction points as [|pt rest IH]; intros outBuf Hfit; simpl.
  - by rewrite app_nil_r.
  - rewrite serialized_cons in Hfit |- *. rewrite !len_app in Hfit.
    pose proof (len_nonneg (serialized' rest precision)).
    pose proof (len_nonneg (String.list_byte_of_string (PrecisionString pt precision))).
    pose proof (len_nonneg [x0a]).
    rewrite Buffer_Write_fits by lia. simpl.
    rewrite Buffer_Write_fits by (rewrite len_app; lia). simpl.
    rewrite IH by (rewrite !len_app; lia).
    by rewrite <- !app_assoc.
Qed.

(** Past the method and [db] checks, a request that is not gzip-encoded
    goes to the body of the handler as it is. *)
Lemma serveWrite_plain h w r :
  Request.Method r = "POST" →
  Values_Get (Request.URL_Query r) "db" ≠ "" →
  Header_Get' (Request.Header r) "Content-Encoding" ≠ "gzip" →
  serveWrite' h w r = serveWrite_body' h w r (queryParams_of h r) (Request.Body r).
Proof.
  intros Hm Hdb Hgz. unfold serveWrite.
  rewrite (bool_decide_eq_true_2 _ Hm). simpl.
  rewrite (bool_decide_eq_false_2 _ Hdb).
  by rewrite (bool_decide_eq_false_2 _ Hgz).
Qed.

Lemma serveWrite_gzip h w r z :
  Request.Method r = "POST" →
  Values_Get (Request.URL_Query r) "db" ≠ "" →
  Header_Get' (Request.Header r) "Content-Encoding" = "gzip" →
  gzip_NewReader (Request.Body r) = Some z →
  serveWrite' h w r = serveWrite_body' h w r (queryParams_of h r) z.
Proof.
  intros Hm Hdb Hgz Hz. unfold serveWrite.
  rewrite (bool_decide_eq_true_2 _ Hm). simpl.
  rewrite (bool_decide_eq_false_2 _ Hdb).
  by rewrite (bool_decide_eq_true_2 _ Hgz), Hz.
Qed.

(** C1 (the code against the claim). For a POST /write whose body parses,
    every write backend is handed the 2048 zero bytes that [getBuf] puts
    in a new buffer, and only after them the points re-serialized at the
    request's precision, a line feed after each; the parser, too, is given
    the body behind 2048 zero bytes.  The payload is therefore never the
    concatenation of the serialized points alone. *)
Theorem serveWrite_payload_keeps_getBuf h r points :
  Request.Method r = "POST" →
  Values_Get (Request.URL_Query r) "db" ≠ "" →
  Header_Get' (Request.Header r) "Content-Encoding" ≠ "gzip" →
  r_err (Request.Body r) = None →
  ParsePointsWithPrecision (getBuf ++ r_data (Request.Body r)) now
    (Values_Get (Request.URL_Query r) "precision") = Some points →
  (len getBuf + len (r_data (Request.Body r)) ≤ maxInt)%Z →
  (len getBuf
   + len (serialized' points (Values_Get (Request.URL_Query r) "precision"))
   ≤ maxInt)%Z →
  to <$> posts (serveWrite' h new_ResponseWriter r) = backends h
  ∧ (∀ c, c ∈ posts (serveWrite' h new_ResponseWriter r) →
       post_body c
       = replicate 2048 x00
         ++ serialized' points (Values_Get (Request.URL_Query r) "precision")
       ∧ post_body c
         ≠ serialized' points (Values_Get (Request.URL_Query r) "precision"))
  ∧ sent_status (response (serveWrite' h new_ResponseWriter r)) = StatusNoContent.
Proof.
  intros Hm Hdb Hgz Herr Hparse Hfit1 Hfit2.
  rewrite (serveWrite_plain _ _ _ Hm Hdb Hgz).
  unfold serveWrite_body, ReadFrom.
  rewrite (Buffer_Write_fits _ _ Hfit1). cbn [bind or_panic fst snd]. rewrite Herr.
  rewrite queryParams_of_precision, Hparse.
  rewrite (write_points_fits _ _ _ Hfit2). cbn [or_panic posts response].
  split; [|split; [|done]].
  - rewrite <- list_fmap_compose. apply list_fmap_id.
  - intros c Hc. apply list_elem_of_fmap in Hc as (b & -> & _). cbn [post_body].
    split; [reflexivity|].
    intros Heq. apply (f_equal length) in Heq.
    rewrite length_app, getBuf_length in Heq. lia.
Qed.

(** C7, as the code has it. A gzip-encoded POST /write whose stream the
    gzip reader accepts (the header is read when the reader is made) and
    that then fails while it is read, as a stream with a truncated trailer
    does, is answered with status 500, problem reading request body;
    nothing is parsed and nothing is forwarded. *)
Theorem serveWrite_gzip_read_error_is_500 h r z e :
  Request.Method r = "POST" →
  Values_Get (Request.URL_Query r) "db" ≠ "" →
  Header_Get' (Request.Header r) "Content-Encoding" = "gzip" →
  gzip_NewReader (Request.Body r) = Some z →
  r_err z = Some e →
  (len getBuf + len (r_data z) ≤ maxInt)%Z →
  sent_status (response (serveWrite' h new_ResponseWriter r))
  = StatusInternalServerError
  ∧ w_body (response (serveWrite' h new_ResponseWriter r))
    = String.list_byte_of_string (jsonError_data Quote "problem reading request body")
  ∧ posts (serveWrite' h new_ResponseWriter r) = []
  ∧ panic (serveWrite' h new_ResponseWriter r) = None.
Proof.
  intros Hm Hdb Hgz Hz Herr Hfit.
  rewrite (serveWrite_gzip _ _ _ _ Hm Hdb Hgz Hz).
  unfold serveWrite_body, ReadFrom.
  rewrite (Buffer_Write_fits _ _ Hfit). cbn [bind or_panic fst snd]. rewrite Herr.
  done.
Qed.

End write_facts.

(** ** The theorems at concrete requests *)

Lemma serveWrite_payload_keeps_getBuf_witness :
  to <$> posts (demo_serveWrite two_writers demo_write) = backends two_writers
  ∧ (∀ c, c ∈ posts (demo_serveWrite two_writers demo_write) →
       post_body c
       = replicate 2048 x00
         ++ serialized string demo_PrecisionString [demo_line]
              (Values_Get (Request.URL_Query demo_write) "precision")
       ∧ post_body c
         ≠ serialized string demo_PrecisionString [demo_line]
             (Values_Get (Request.URL_Query demo_write) "precision"))
  ∧ sent_status (response (demo_serveWrite two_writers demo_write)) = StatusNoContent.
Proof.
  apply (serveWrite_payload_keeps_getBuf demo_canonical demo_Quote demo_Encode string
           demo_Parse demo_PrecisionString demo_gzip 0 two_writers demo_write
           [demo_line]).
  - reflexivity.
  - vm_compute. discriminate.
  - vm_compute. discriminate.
  - reflexivity.
  - vm_compute. reflexivity.
  - vm_compute. discriminate.
  - vm_compute. discriminate.
Defined.

(** C5 as stated fails. Two query backends, the first up and the second
    down, and a DROP: one post succeeded, yet the client gets status 500
    and no body, not the body of the backend that answered. *)
Lemma all_node_partial_success_is_500 :
  first_token id demo_drop = "DROP"
  ∧ answer_to demo_canonical demo_Encode demo_answers demo_drop (demo_backend "up")
    = PostOk {| Headers := {[ "content-type" := "application/json" ]};
                StatusCode := StatusOK; Body := [x7b; x7d] |}
  ∧ sent_status (response (demo_serveQuery up_then_down demo_drop))
    = StatusInternalServerError
  ∧ w_body (response (demo_serveQuery up_then_down demo_drop)) = [].
Proof.
  split; [vm_compute; reflexivity|]. split; [reflexivity|].
  split; vm_compute; reflexivity.
Qed.

Lemma demo_drop_all_node : first_token id demo_drop ∈ all_node_tokens.
Proof.
  assert (first_token id demo_drop = "DROP") as -> by (vm_compute; reflexivity).
  apply list_elem_of_In. simpl. tauto.
Defined.

Lemma all_node_answers_with_last_backend_witness :
  to <$> posts (demo_serveQuery up_then_down demo_drop) = queries up_then_down
  ∧ panic (demo_serveQuery up_then_down demo_drop) = None
  ∧ (∀ resp,
       answer_to demo_canonical demo_Encode demo_answers demo_drop (demo_backend "down")
       = PostOk resp →
       sent_status (response (demo_serveQuery up_then_down demo_drop)) = StatusOK
       ∧ w_body (response (demo_serveQuery up_then_down demo_drop)) = Body resp)
  ∧ (∀ err,
       answer_to demo_canonical demo_Encode demo_answers demo_drop (demo_backend "down")
       = PostErr err →
       w_body (response (demo_serveQuery up_then_down demo_drop)) = [])
  ∧ (sent_status (response (demo_serveQuery up_then_down demo_drop))
     = StatusInternalServerError
     ↔ ∃ err,
         answer_to demo_canonical demo_Encode demo_answers demo_drop
           (demo_backend "down") = PostErr err).
Proof.
  apply (all_node_answers_with_last_backend id demo_canonical demo_Quote demo_Encode
           demo_answers 7 up_then_down demo_drop [demo_backend "up"]
           (demo_backend "down")).
  - exact demo_drop_all_node.
  - reflexivity.
Defined.

Lemma demo_select_single_node : first_token id demo_select ∈ single_node_tokens.
Proof.
  assert (first_token id demo_select = "SELECT") as -> by (vm_compute; reflexivity).
  apply list_elem_of_In. simpl. tauto.
Defined.

Lemma single_node_status_always_200_witness :
  StatusCode {| Headers := {[ "content-type" := "application/json" ]};
                StatusCode := StatusInternalServerError;
                Body := [x6f; x6f; x70; x73] |} = 500%Z
  ∧ sent_status (response (demo_serveQuery only_broken demo_select)) = StatusOK
  ∧ w_body (response (demo_serveQuery only_broken demo_select))
    = [x6f; x6f; x70; x73].
Proof.
  split; [reflexivity|].
  destruct (single_node_status_always_200 id demo_canonical demo_Quote demo_Encode
              demo_answers 7 only_broken demo_select (demo_backend "broken")
              {| Headers := {[ "content-type" := "application/json" ]};
                 StatusCode := StatusInternalServerError;
                 Body := [x6f; x6f; x70; x73] |}
              demo_select_single_node eq_refl eq_refl)
    as (Hsent & _ & Hbody & _).
  split; [exact Hsent|exact Hbody].
Defined.



(** C7 as stated fails. A gzip-encoded write whose stream has a complete
    header and a trailer cut short: the reader is made without error, the
    read then fails, and the answer is 500, not 400. *)
Lemma gzip_cut_trailer_is_500 :
  Request.Method demo_write_gzip = "POST"
  ∧ Header_Get demo_canonical (Request.Header demo_write_gzip) "Content-Encoding"
    = "gzip"
  ∧ demo_gzip (Request.Body demo_write_gzip)
    = Some {| r_data := []; r_err := Some "unexpected EOF" |}
  ∧ sent_status (response (demo_serveWrite two_writers demo_write_gzip))
    = StatusInternalServerError
  ∧ sent_status (response (demo_serveWrite two_writers demo_write_gzip))
    ≠ StatusBadRequest.
Proof.
  split; [reflexivity|]. split; [vm_compute; reflexivity|].
  split; [reflexivity|]. split; [vm_compute; reflexivity|].
  vm_compute. discriminate.
Qed.

Lemma serveWrite_gzip_read_error_is_500_witness :
  sent_status (response (demo_serveWrite two_writers demo_write_gzip))
  = StatusInternalServerError
  ∧ w_body (response (demo_serveWrite two_writers demo_write_gzip))
    = String.list_byte_of_string
        (jsonError_data demo_Quote "problem reading request body")
  ∧ posts (demo_serveWrite two_writers demo_write_gzip) = []
  ∧ panic (demo_serveWrite two_writers demo_write_gzip) = None.
Proof.
  apply (serveWrite_gzip_read_error_is_500 demo_canonical demo_Quote demo_Encode string
           demo_Parse demo_PrecisionString demo_gzip 0 two_writers demo_write_gzip
           {| r_data := []; r_err := Some "unexpected EOF" |} "unexpected EOF").
  - reflexivity.
  - vm_compute. discriminate.
  - vm_compute. reflexivity.
  - reflexivity.
  - reflexivity.
  - vm_compute. discriminate.
Defined.

(** ** Further properties of the retry buffer *)

Lemma addToCache_frame {P} clock (r r' : retryBuffer P) w w' points :
  addToCache clock r w points = Done (r', w') →
  initialInterval r' = initialInterval r ∧ multiplier r' = multiplier r
  ∧ maxInterval r' = maxInterval r ∧ maxBuffered r' = maxBuffered r
  ∧ maxBatch r' = maxBatch r ∧ p r' = p r ∧ itemChan r' = itemChan r
  ∧ n_post w' = n_post w ∧ trace w' = trace w.
Proof.
  unfold addToCache. intros Hrun.
  destruct (addToCache_range _ _) as [[items| |]|]; simplify_eq/=; done.
Qed.

Lemma run_iteration_fields {P} reply clock fuel (r r' : retryBuffer P) w w' :
  run_iteration reply clock fuel r w = Done (r', w') →
  chan_buf (itemChan r') = drop 1 (chan_buf (itemChan r))
  ∧ chan_cap (itemChan r') = chan_cap (itemChan r)
  ∧ initialInterval r' = initialInterval r ∧ multiplier r' = multiplier r
  ∧ maxInterval r' = maxInterval r ∧ maxBuffered r' = maxBuffered r
  ∧ maxBatch r' = maxBatch r ∧ p r' = p r.
Proof.
  unfold run_iteration. intros Hrun.
  destruct (chan_buf (itemChan r)) as [|points rest] eqn:Hchan; simpl in Hrun.
  - destruct (scan _ _ _ _ _ _ _ _ _) as [[items w1]| |]; simplify_eq/=.
    rewrite Hchan. done.
  - destruct (addToCache _ _ _ _) as [[r1 w1]| |] eqn:Hadd; simplify_eq/=.
    apply addToCache_frame in Hadd as (H1 & H2 & H3 & H4 & H5 & H6 & Hc & _).
    destruct (scan _ _ _ _ _ _ _ _ _) as [[items w2]| |]; simplify_eq/=.
    rewrite H1, H2, H3, H4, H5, H6, Hc. simpl. by rewrite drop_0.
Qed.

(** X2. A turn of the processing loop takes at most one record, the oldest,
    off the admission channel, and changes nothing else of the buffer but
    the cached batches: the intervals, the size limits, the wrapped poster
    and the capacity of the channel stay as they were. *)
Theorem run_iteration_frame {P} reply clock fuel (r r' : retryBuffer P) w w' :
  run_iteration reply clock fuel r w = Done (r', w') →
  chan_buf (itemChan r') = drop 1 (chan_buf (itemChan r))
  ∧ chan_cap (itemChan r') = chan_cap (itemChan r)
  ∧ initialInterval r' = initialInterval r ∧ multiplier r' = multiplier r
  ∧ maxInterval r' = maxInterval r ∧ maxBuffered r' = maxBuffered r
  ∧ maxBatch r' = maxBatch r ∧ p r' = p r.
Proof. apply run_iteration_fields. Qed.

Lemma run_iteration_frame_witness :
  chan_buf (itemChan demo_taken_one) = drop 1 (chan_buf (itemChan demo_admitted))
  ∧ chan_cap (itemChan demo_taken_one) = chan_cap (itemChan demo_admitted)
  ∧ initialInterval demo_taken_one = initialInterval demo_admitted
  ∧ multiplier demo_taken_one = multiplier demo_admitted
  ∧ maxInterval demo_taken_one = maxInterval demo_admitted
  ∧ maxBuffered demo_taken_one = maxBuffered demo_admitted
  ∧ maxBatch demo_taken_one = maxBatch demo_admitted
  ∧ p demo_taken_one = p demo_admitted.
Proof.
  assert (run_iteration accepting demo_clock 1 demo_admitted world0
          = Done (demo_taken_one, {| n_post := 0; n_now := 2; trace := [] |}))
    as Hrun.
  { vm_compute. reflexivity. }
  exact (run_iteration_frame _ _ _ _ _ _ _ Hrun).
Defined.

(** X1. In every state a retry buffer and its processor can reach, the
    admission channel has capacity 10000 and holds at most that many
    records, the first interval of a flush is 500 ms and the multiplier
    is 2. *)
Theorem reachable_channel_bounded {P} reply clock (r : retryBuffer P) (w : world) :
  reachable reply clock r w →
  chan_cap (itemChan r) = Z.to_nat 10000
  ∧ length (chan_buf (itemChan r)) ≤ Z.to_nat 10000
  ∧ initialInterval r = (500 * time.Millisecond)%Z
  ∧ multiplier r = 2%Z.
Proof.
  induction 1 as [size batch max po|r w buf query auth r' res _ IH Hpost
                  |r w fuel r' w' _ IH Hrun].
  - simpl. split; [done|]. split; [lia|]. done.
  - destruct IH as (Hcap & Hlen & Hinit & Hmult).
    unfold retryBuffer_post, chan_send in Hpost. case_decide as Hroom; [|done].
    simplify_eq/=. rewrite length_app. simpl. split; [done|]. split; [lia|]. done.
  - destruct IH as (Hcap & Hlen & Hinit & Hmult).
    apply run_iteration_fields in Hrun as (Hbuf & Hcap' & Hi & Hm & _).
    rewrite Hbuf, Hcap', Hi, Hm, length_drop. split; [done|]. split; [lia|]. done.
Qed.

Lemma reachable_channel_bounded_witness :
  chan_cap (itemChan demo_cached) = Z.to_nat 10000
  ∧ length (chan_buf (itemChan demo_cached)) ≤ Z.to_nat 10000
  ∧ initialInterval demo_cached = (500 * time.Millisecond)%Z
  ∧ multiplier demo_cached = 2%Z.
Proof.
  exact (reachable_channel_bounded accepting (clock_at 0) demo_cached _
           demo_cached_reachable).
Defined.

Lemma tick_now_iter (w : world) (n : nat) :
  Nat.iter n tick_now w
  = {| n_post := n_post w; n_now := n_now w + n; trace := trace w |}.
Proof.
  induction n as [|n IH]; simpl.
  - destruct w. simpl. f_equal. lia.
  - rewrite IH. unfold tick_now. simpl. f_equal. lia.
Qed.

Lemma scan_none_due {P} reply clock fuel (r : retryBuffer P) arr m todo :
  ∀ index w,
    todo + index ≤ length arr →
    (∀ i c, index ≤ i → arr !! i = Some c →
            due r (clock (n_now w + (i - index))) c = false) →
    scan reply clock fuel r todo index arr m w
    = Done (take m arr,
            {| n_post := n_post w; n_now := n_now w + todo; trace := trace w |}).
Proof.
  induction todo as [|todo IH]; intros index w Hlen Hdue; simpl.
  - destruct w. simpl. do 3 f_equal. lia.
  - destruct (arr !! index) as [c|] eqn:Hc.
    2:{ apply lookup_ge_None in Hc. lia. }
    pose proof (Hdue index c ltac:(lia) Hc) as Hd.
    rewrite Nat.sub_diag, Nat.add_0_r in Hd. rewrite Hd.
    rewrite IH.
    + simpl. do 3 f_equal. lia.
    + lia.
    + intros i c' Hi Hc'. cbn [n_now tick_now].
      replace (S (n_now w) + (i - S index)) with (n_now w + (i - index)) by lia.
      apply Hdue; [lia|done].
Qed.

(** X3. A turn of the loop that finds the channel empty and no cached
    batch due (neither older than maxInterval nor larger than maxBuffered
    at the moment the scan looks at it) naps for 10 ms, reads the clock
    once per cached batch, posts nothing and leaves the buffer exactly as
    it was. *)
Theorem run_iteration_idle {P} reply clock fuel (r : retryBuffer P) (w : world) :
  chan_buf (itemChan r) = [] →
  (∀ i c, cachedItems r !! i = Some c → due r (clock (n_now w + i)) c = false) →
  run_iteration reply clock fuel r w
  = Done (r, {| n_post := n_post w;
                n_now := n_now w + length (cachedItems r);
                trace := trace w ++ [EvSleep (10 * time.Millisecond)] |}).
Proof.
  intros Hchan Hdue. unfold run_iteration. rewrite Hchan. simpl.
  rewrite scan_none_due.
  - simpl. rewrite firstn_all. destruct r; reflexivity.
  - lia.
  - intros i c _ Hc. simpl. rewrite Nat.sub_0_r. by apply Hdue.
Qed.

Lemma run_iteration_idle_witness :
  run_iteration refusing (clock_at 0) 1 demo_cached world0
  = Done (demo_cached,
          {| n_post := 0; n_now := 0 + length (cachedItems demo_cached);
             trace := [] ++ [EvSleep (10 * time.Millisecond)] |}).
Proof.
  apply (run_iteration_idle refusing (clock_at 0) 1 demo_cached world0).
  - reflexivity.
  - intros i c Hc. destruct i as [|i]; simplify_eq/=. reflexivity.
Defined.

(** A flush posts at least once, and every post of it carries the same
    data, query and auth; it reads no clock. *)
Lemma postToInfluxDB_loop_posts {P} reply (r : retryBuffer P) data query auth fuel :
  ∀ interval w w',
    postToInfluxDB_loop reply fuel r data query auth interval w = Done w' →
    n_now w' = n_now w
    ∧ ∃ tr, trace w' = trace w ++ tr
            ∧ posts_of tr ≠ []
            ∧ Forall (λ x, x = (data, query, auth)) (posts_of tr).
Proof.
  induction fuel as [|fuel IH]; intros interval w w' Hrun; [done|].
  simpl in Hrun.
  destruct (delivered _).
  { simplify_eq/=. split; [done|]. eexists [_; _].
    split; [by rewrite <- app_assoc|]. split; [done|]. by repeat constructor. }
  destruct (interval >=? maxInterval r)%Z.
  { simplify_eq/=. split; [done|]. eexists [_; _].
    split; [by rewrite <- app_assoc|]. split; [done|]. by repeat constructor. }
  apply IH in Hrun as (Hnow & tr & Htr & _ & Hall). simpl in *.
  split; [done|].
  exists (EvPost data query auth :: EvSleep
            (if (interval <=? maxInterval r)%Z
             then if (wrap64 (interval * multiplier r) >? maxInterval r)%Z
                  then maxInterval r else wrap64 (interval * multiplier r)
             else interval) :: tr).
  split; [by rewrite Htr, <- !app_assoc|]. split; [done|].
  simpl. by constructor.
Qed.

Lemma scan_array_step (arr : list cachedPoints.t) (index m : nat) (c : cachedPoints.t) :
  c ∈ take index arr ++ drop (index + 1) (take m arr) ++ drop (m - 1) arr → c ∈ arr.
Proof.
  rewrite !elem_of_app. intros [Hc|[Hc|Hc]].
  - by eapply subseteq_take.
  - eapply subseteq_take. by eapply subseteq_drop.
  - by eapply subseteq_drop.
Qed.

(** X4. The scan never invents, edits or merges data: every post it makes
    carries exactly the accumulated bytes, the query and the auth of one
    batch that was cached when the scan began, and the batches it leaves
    cached are batches of that cache, unchanged and in their order. *)
Theorem scan_posts_cached_batches {P} reply clock fuel (r : retryBuffer P) todo :
  ∀ index arr m w items w',
    scan reply clock fuel r todo index arr m w = Done (items, w') →
    m ≤ length arr →
    items `sublist_of` take m arr
    ∧ n_post w ≤ n_post w'
    ∧ ∃ tr, trace w' = trace w ++ tr
            ∧ Forall (λ x, ∃ c, c ∈ arr ∧ x = payload_of c) (posts_of tr).
Proof.
  intros index arr m w items w' Hrun Hm.
  split; [by eapply scan_sublist|].
  revert index arr m w items w' Hrun Hm.
  induction todo as [|todo IH]; intros index arr m w items w' Hrun Hm; simpl in Hrun.
  - simplify_eq. split; [done|]. exists []. split; [by rewrite app_nil_r|]. constructor.
  - destruct (arr !! index) as [cached|] eqn:Hidx; [|done].
    destruct (due _ _ _).
    + case_decide as Hle; [|done].
      destruct (postToInfluxDB _ _ _ _ _ _ _) as [w1| |] eqn:Hpost; simplify_eq/=.
      assert (n_post (tick_now w) ≤ n_post w1) as Hmono.
      { clear -Hpost. unfold postToInfluxDB in Hpost.
        revert Hpost. generalize (initialInterval r) (tick_now w).
        induction fuel as [|fuel IHf]; intros interval w0 Hrun; [done|].
        simpl in Hrun. destruct (delivered _); [simplify_eq/=; lia|].
        destruct (interval >=? maxInterval r)%Z; [simplify_eq/=; lia|].
        apply IHf in Hrun. simpl in Hrun. lia. }
      apply postToInfluxDB_loop_posts in Hpost as (_ & tr1 & Htr1 & _ & Hall1).
      apply IH in Hrun as (Hn & tr2 & Htr2 & Hall2).
      2:{ rewrite !length_app, length_take, !length_drop, length_take. lia. }
      split; [simpl in Hmono; lia|].
      exists (tr1 ++ tr2). split.
      * rewrite Htr2, Htr1. simpl. by rewrite app_assoc.
      * unfold posts_of in *. rewrite omap_app. apply Forall_app. split.
        -- eapply Forall_impl; [exact Hall1|]. intros x ->.
           exists cached. split; [|done]. by eapply list_elem_of_lookup_2.
        -- eapply Forall_impl; [exact Hall2|]. intros x (c & Hc & ->).
           exists c. split; [|done]. by eapply scan_array_step.
    + apply IH in Hrun as (Hn & tr & Htr & Hall); [|done].
      split; [simpl in Hn; lia|]. exists tr. split; [done|]. done.
Qed.

Lemma scan_posts_cached_batches_witness :
  [] `sublist_of` take 1 (cachedItems demo_cached)
  ∧ n_post world0 ≤ 1
  ∧ ∃ tr, [EvPost demo_B "db=x" ""; EvLogSend 6] = trace world0 ++ tr
          ∧ Forall (λ x, ∃ c, c ∈ cachedItems demo_cached ∧ x = payload_of c)
              (posts_of tr).
Proof.
  apply (scan_posts_cached_batches accepting (clock_at (11 * time.Second)) 1
           demo_cached 1 0 (cachedItems demo_cached) 1 world0 []
           {| n_post := 1; n_now := 1;
              trace := [EvPost demo_B "db=x" ""; EvLogSend 6] |}).
  - vm_compute. reflexivity.
  - simpl. lia.
Defined.

Lemma postToInfluxDB_returns {P} reply (r : retryBuffer P) data query auth w fuel :
  initialInterval r = retryInitial →
  multiplier r = retryMultiplier →
  (maxInterval r ≤ 2 ^ 62)%Z →
  35 ≤ fuel →
  ∃ w', postToInfluxDB reply fuel r data query auth w = Done w'.
Proof.
  intros Hinit Hmult Hmax Hfuel.
  destruct (flush_end_exists reply r data query auth w 34 0) as (n & Hn & Hpre & Hend).
  - etrans; [exact Hmax|]. vm_compute. discriminate.
  - intros j Hj. lia.
  - eexists. unfold postToInfluxDB.
    apply (postToInfluxDB_loop_trace reply r data query auth Hmult Hmax n fuel 0).
    + lia.
    + rewrite Hinit. unfold backoff. change (2 ^ Z.of_nat 0)%Z with 1%Z.
      by rewrite Z.mul_1_r.
    + intros j Hj. by apply Hpre.
    + intros j Hj. by apply Hpre.
    + exact Hend.
Qed.

(** X5. A cached batch that is alone in the cache and due when the scan
    looks at it leaves the cache in that turn whatever the backend
    answers: the turn returns, the cache is empty afterwards, and in
    between the batch's bytes were posted at least once, every post of the
    turn carrying its bytes, query and auth. *)
Theorem lone_due_batch_is_flushed {P} reply clock fuel (r : retryBuffer P) w c :
  cachedItems r = [c] →
  chan_buf (itemChan r) = [] →
  initialInterval r = retryInitial →
  multiplier r = retryMultiplier →
  (maxInterval r ≤ 2 ^ 62)%Z →
  due r (clock (n_now w)) c = true →
  35 ≤ fuel →
  ∃ w' tr,
    run_iteration reply clock fuel r w = Done (set_cachedItems r [], w')
    ∧ trace w' = trace w ++ EvSleep (10 * time.Millisecond) :: tr
    ∧ posts_of tr ≠ []
    ∧ Forall (λ x, x = payload_of c) (posts_of tr).
Proof.
  intros Hitems Hchan Hinit Hmult Hmax Hdue Hfuel.
  unfold run_iteration. rewrite Hchan. cbn [bind fst snd].
  rewrite Hitems. cbn [length scan lookup list_lookup].
  cbn [n_now emit tick_now]. rewrite Hdue.
  destruct (postToInfluxDB_returns reply r (cachedPoints.Buf c) (cachedPoints.Query c)
              (cachedPoints.Auth c)
              (tick_now (emit w (EvSleep (10 * time.Millisecond))))
              fuel Hinit Hmult Hmax Hfuel) as [w1 Hflush].
  rewrite decide_True by lia. rewrite Hflush. cbn [bind].
  unfold postToInfluxDB in Hflush.
  apply postToInfluxDB_loop_posts in Hflush as (_ & tr & Htr & Hne & Hall).
  exists w1, tr. split; [reflexivity|]. split.
  - rewrite Htr. simpl. by rewrite <- app_assoc.
  - done.
Qed.

Lemma lone_due_batch_is_flushed_witness :
  ∃ w' tr,
    run_iteration refusing (clock_at (11 * time.Second)) 35 demo_cached world0
    = Done (set_cachedItems demo_cached [], w')
    ∧ trace w' = trace world0 ++ EvSleep (10 * time.Millisecond) :: tr
    ∧ posts_of tr ≠ []
    ∧ Forall (λ x, x = payload_of (cachedPoints.mk "db=x" "" demo_B 6 0)) (posts_of tr).
Proof.
  apply (lone_due_batch_is_flushed refusing (clock_at (11 * time.Second)) 35
           demo_cached world0 (cachedPoints.mk "db=x" "" demo_B 6 0)).
  - reflexivity.
  - reflexivity.
  - reflexivity.
  - reflexivity.
  - vm_compute. discriminate.
  - vm_compute. reflexivity.
  - lia.
Defined.

(** X6. With maxInterval at or below the first interval (500 ms for a
    buffer made by newRetryBuffer) a flush never retries: it posts once
    and either logs the send or logs the data as lost, without sleeping. *)
Theorem flush_without_retry {P} reply (r : retryBuffer P) data query auth w fuel :
  (maxInterval r ≤ initialInterval r)%Z →
  postToInfluxDB reply (S fuel) r data query auth w
  = Done {| n_post := S (n_post w); n_now := n_now w;
            trace := trace w ++ [EvPost data query auth;
                                 flush_end data (reply (n_post w) data query auth)] |}.
Proof.
  intros Hmax. unfold postToInfluxDB. cbn [postToInfluxDB_loop]. unfold flush_end.
  destruct (delivered _).
  - unfold emit, tick_post. simpl. by rewrite <- app_assoc.
  - destruct (initialInterval r >=? maxInterval r)%Z eqn:E; [|lia].
    unfold emit, tick_post. simpl. by rewrite <- app_assoc.
Qed.

Lemma flush_without_retry_witness :
  postToInfluxDB refusing 1
    (newRetryBuffer 1048576 524288 (500 * time.Millisecond) ()) demo_A "db=x" "" world0
  = Done {| n_post := 1; n_now := 0;
            trace := [] ++ [EvPost demo_A "db=x" "";
                            flush_end demo_A (refusing 0 demo_A "db=x" "")] |}.
Proof.
  apply (flush_without_retry refusing
           (newRetryBuffer 1048576 524288 (500 * time.Millisecond) ())
           demo_A "db=x" "" world0 0).
  vm_compute. discriminate.
Defined.

Lemma addToCache_range_hit (items : list cachedPoints.t) points :
  ∀ i c,
    items !! i = Some c →
    batch_key c = (batchPoints.Query points, batchPoints.Auth points) →
    (∀ j c', j < i → items !! j = Some c' → batch_key c' ≠ batch_key c) →
    size_ok c →
    (len (cachedPoints.Buf c) + len (batchPoints.Data points) ≤ maxInt)%Z →
    addToCache_range items points
    = Some (Done (<[i := cachedPoints.mk (cachedPoints.Query c) (cachedPoints.Auth c)
                          (cachedPoints.Buf c ++ batchPoints.Data points)
                          (len (cachedPoints.Buf c ++ batchPoints.Data points))
                          (cachedPoints.Time c)]> items)).
Proof.
  induction items as [|c0 rest IH]; intros i c Hi Hkey Hfirst Hsize Hfit; [done|].
  destruct i as [|i]; simpl in *.
  - simplify_eq. unfold batch_key in Hkey. injection Hkey as HQ HA.
    rewrite decide_True by done. unfold Buffer_Write.
    destruct (_ >? _)%Z eqn:E; [lia|]. simpl.
    rewrite Hsize, wrap64_small.
    + unfold len. rewrite length_app. do 4 f_equal. lia.
    + pose proof (len_nonneg (cachedPoints.Buf c)).
      pose proof (len_nonneg (batchPoints.Data points)). lia.
  - rewrite decide_False.
    + rewrite (IH i c); try done.
      intros j c' Hj. apply (Hfirst (S j)). lia.
    + intros [HA HQ]. apply (Hfirst 0 c0); [lia|done|].
      rewrite Hkey. unfold batch_key. by rewrite HA, HQ.
Qed.

(** X7. Admitting data under a key that has a cached batch appends the
    bytes to that batch's accumulator, after what it holds, and adds their
    number to its size; the batch keeps its key and its creation time,
    every other batch is untouched, and nothing is posted or logged. *)
Theorem addToCache_appends {P} clock (r : retryBuffer P) w points i c :
  cache_ok (cachedItems r) →
  cachedItems r !! i = Some c →
  batch_key c = (batchPoints.Query points, batchPoints.Auth points) →
  (len (cachedPoints.Buf c) + len (batchPoints.Data points) ≤ maxInt)%Z →
  addToCache clock r w points
  = Done (set_cachedItems r
            (<[i := cachedPoints.mk (cachedPoints.Query c) (cachedPoints.Auth c)
                      (cachedPoints.Buf c ++ batchPoints.Data points)
                      (cachedPoints.BufSize c + len (batchPoints.Data points))
                      (cachedPoints.Time c)]> (cachedItems r)), w).
Proof.
  intros [Hsz Hnd] Hi Hkey Hfit. unfold addToCache.
  assert (size_ok c) as Hc.
  { rewrite Forall_forall in Hsz. apply Hsz. by eapply list_elem_of_lookup_2. }
  rewrite (addToCache_range_hit _ _ i c Hi Hkey); try done.
  - cbn [bind]. rewrite len_app. by rewrite Hc.
  - intros j c' Hj Hc' Heq.
    assert (j = i); [|lia].
    eapply NoDup_lookup; [exact Hnd| |].
    + rewrite list_lookup_fmap, Hc'. reflexivity.
    + rewrite list_lookup_fmap, Hi. simpl. by rewrite Heq.
Qed.

Lemma addToCache_appends_witness :
  addToCache (clock_at 0) demo_cached world0 (batchPoints.mk "db=x" "" demo_A)
  = Done (set_cachedItems demo_cached
            (<[0 := cachedPoints.mk "db=x" "" (demo_B ++ demo_A) (6 + len demo_A) 0]>
               (cachedItems demo_cached)), world0).
Proof.
  apply (addToCache_appends (clock_at 0) demo_cached world0
           (batchPoints.mk "db=x" "" demo_A) 0 (cachedPoints.mk "db=x" "" demo_B 6 0)).
  - split; [by repeat constructor|]. simpl. apply NoDup_singleton.
  - reflexivity.
  - reflexivity.
  - vm_compute. discriminate.
Defined.

(** ** Further properties of the HTTP relay *)

Lemma list_byte_of_string_length (s : string) :
  length (String.list_byte_of_string s) = String.length s.
Proof.
  unfold String.list_byte_of_string.
  rewrite length_map. induction s as [|c s IH]; simpl; [done|]. by rewrite IH.
Qed.

Section handler_facts.
Context (unicode_ToUpper : string → string) (CanonicalMIMEHeaderKey : string → string).
Context (Quote : string → string) (Encode : Values → string).
Context (Point : Type).
Context (ParsePointsWithPrecision : list byte → Z → string → option (list Point)).
Context (PrecisionString : Point → string → string).
Context (gzip_NewReader : reader → option reader).
Context (backend_post : httpBackend → list byte → string → string → post_result).
Context (random : nat) (now : Z).

Local Abbreviation canon := CanonicalMIMEHeaderKey.
Local Abbreviation first_token' := (first_token unicode_ToUpper).
Local Abbreviation Header_Get' := (Header_Get CanonicalMIMEHeaderKey).
Local Abbreviation Header_Set' := (Header_Set CanonicalMIMEHeaderKey).
Local Abbreviation jsonError' := (jsonError CanonicalMIMEHeaderKey Quote).
Local Abbreviation json' := (λ message, String.list_byte_of_string (jsonError_data Quote message)).
Local Abbreviation answer_to' := (answer_to CanonicalMIMEHeaderKey Encode backend_post).
Local Abbreviation serveQuery' :=
  (serveQuery unicode_ToUpper CanonicalMIMEHeaderKey Quote Encode backend_post random).
Local Abbreviation serveWrite' :=
  (serveWrite CanonicalMIMEHeaderKey Quote Encode Point ParsePointsWithPrecision
     PrecisionString gzip_NewReader now).
Local Abbreviation serveWrite_body' :=
  (serveWrite_body CanonicalMIMEHeaderKey Quote Encode Point ParsePointsWithPrecision
     PrecisionString now).
Local Abbreviation body_read_by' := (body_read_by CanonicalMIMEHeaderKey gzip_NewReader).
Local Abbreviation ServeHTTP' :=
  (ServeHTTP unicode_ToUpper CanonicalMIMEHeaderKey Quote Encode Point
     ParsePointsWithPrecision PrecisionString gzip_NewReader backend_post random now).

(** X8. A JSON error appends to the body the object with the quoted
    message and a line feed, and sets Content-Length to the decimal number
    of bytes of exactly that text and Content-Type to application/json.
    The status becomes the given code unless a status was written before,
    which then stays. *)
Theorem jsonError_response (w : ResponseWriter) (code : Z) (message : string) :
  canon "Content-Type" ≠ canon "Content-Length" →
  w_status (jsonError' w code message) = Some (default code (w_status w))
  ∧ w_body (jsonError' w code message) = w_body w ++ json' message
  ∧ w_Header (jsonError' w code message) !! canon "Content-Length"
    = Some [pretty (length (json' message))]
  ∧ w_Header (jsonError' w code message) !! canon "Content-Type"
    = Some ["application/json"]
  ∧ (∀ k, k ≠ canon "Content-Length" → k ≠ canon "Content-Type" →
          w_Header (jsonError' w code message) !! k = w_Header w !! k).
Proof.
  intros Hne. cbv beta. rewrite list_byte_of_string_length.
  unfold jsonError, Write, WriteHeader, Header_Set. cbn [w_status w_body w_Header].
  split; [by destruct (w_status w)|]. split; [by destruct (w_status w)|].
  split; [|split].
  - destruct (w_status w); simpl; apply lookup_insert_eq.
  - destruct (w_status w); simpl; rewrite lookup_insert_ne by done;
      apply lookup_insert_eq.
  - intros k Hk1 Hk2. destruct (w_status w); simpl;
      rewrite !lookup_insert_ne by done; reflexivity.
Qed.

(** X9. A request to the write handler whose method is not POST is
    answered without its parameters, headers or body being looked at and
    without anything being forwarded: OPTIONS gets status 204 and no body,
    every other method status 405 with the JSON error; both carry the
    header Allow: POST. *)
Theorem serveWrite_method_not_allowed h r :
  Request.Method r ≠ "POST" →
  canon "Allow" ≠ canon "Content-Type" →
  canon "Allow" ≠ canon "Content-Length" →
  posts (serveWrite' h new_ResponseWriter r) = []
  ∧ panic (serveWrite' h new_ResponseWriter r) = None
  ∧ w_Header (response (serveWrite' h new_ResponseWriter r)) !! canon "Allow"
    = Some ["POST"]
  ∧ (Request.Method r = "OPTIONS" →
     sent_status (response (serveWrite' h new_ResponseWriter r)) = StatusNoContent
     ∧ w_body (response (serveWrite' h new_ResponseWriter r)) = [])
  ∧ (Request.Method r ≠ "OPTIONS" →
     sent_status (response (serveWrite' h new_ResponseWriter r))
     = StatusMethodNotAllowed
     ∧ w_body (response (serveWrite' h new_ResponseWriter r))
       = json' "invalid write method").
Proof.
  intros Hm Hct Hcl. unfold serveWrite.
  rewrite (bool_decide_eq_false_2 _ Hm). cbn [negb].
  case_bool_decide as Hopt.
  - cbn. split; [done|]. split; [done|].
    split; [apply lookup_insert_eq|]. split; [done|]. done.
  - cbn [respond posts panic response]. split; [done|]. split; [done|].
    split; [|split; [done|]].
    + unfold jsonError, Write, WriteHeader, Header_Set. cbn.
      rewrite !lookup_insert_ne by done. apply lookup_insert_eq.
    + intros _. done.
Qed.

(** X10. A POST to the write handler without a [db] parameter (or with an
    empty one) is answered 400, missing parameter: db; the body is not
    read, nothing is parsed and nothing is forwarded. *)
Theorem serveWrite_missing_db h r :
  Request.Method r = "POST" →
  Values_Get (Request.URL_Query r) "db" = "" →
  serveWrite' h new_ResponseWriter r
  = respond (jsonError' new_ResponseWriter StatusBadRequest "missing parameter: db")
  ∧ sent_status (response (serveWrite' h new_ResponseWriter r)) = StatusBadRequest
  ∧ w_body (response (serveWrite' h new_ResponseWriter r))
    = json' "missing parameter: db"
  ∧ posts (serveWrite' h new_ResponseWriter r) = [].
Proof.
  intros Hm Hdb. unfold serveWrite.
  rewrite (bool_decide_eq_true_2 _ Hm). cbn [negb].
  rewrite (bool_decide_eq_true_2 _ Hdb). done.
Qed.

Lemma serveWrite_reads h w r body :
  Request.Method r = "POST" →
  Values_Get (Request.URL_Query r) "db" ≠ "" →
  body_read_by' r body →
  serveWrite' h w r = serveWrite_body' h w r (queryParams_of h r) body.
Proof.
  intros Hm Hdb [[Hgz ->]|[Hgz Hz]].
  - by apply serveWrite_plain.
  - by apply serveWrite_gzip.
Qed.

(** X11. A POST whose body (decoded, if gzip-encoded) is read without
    error but does not parse as points is answered 400, unable to parse
    points, and nothing is forwarded. *)
Theorem serveWrite_unparsable h r body :
  Request.Method r = "POST" →
  Values_Get (Request.URL_Query r) "db" ≠ "" →
  body_read_by' r body →
  r_err body = None →
  (len getBuf + len (r_data body) ≤ maxInt)%Z →
  ParsePointsWithPrecision (getBuf ++ r_data body) now
    (Values_Get (Request.URL_Query r) "precision") = None →
  sent_status (response (serveWrite' h new_ResponseWriter r)) = StatusBadRequest
  ∧ w_body (response (serveWrite' h new_ResponseWriter r))
    = json' "unable to parse points"
  ∧ posts (serveWrite' h new_ResponseWriter r) = []
  ∧ panic (serveWrite' h new_ResponseWriter r) = None.
Proof.
  intros Hm Hdb Hbody Herr Hfit Hparse.
  rewrite (serveWrite_reads _ _ _ _ Hm Hdb Hbody).
  unfold serveWrite_body, ReadFrom.
  rewrite (Buffer_Write_fits _ _ Hfit). cbn [bind or_panic fst snd]. rewrite Herr.
  rewrite queryParams_of_precision, Hparse. done.
Qed.

(** X12. A gzip-encoded POST whose stream the gzip reader rejects has the
    400, unable to decode gzip body, written to its response; the handler
    does not return there, goes on with the nil decoder and panics, with
    nothing forwarded. *)
Theorem serveWrite_gzip_rejected h r :
  Request.Method r = "POST" →
  Values_Get (Request.URL_Query r) "db" ≠ "" →
  Header_Get' (Request.Header r) "Content-Encoding" = "gzip" →
  gzip_NewReader (Request.Body r) = None →
  w_status (response (serveWrite' h new_ResponseWriter r)) = Some StatusBadRequest
  ∧ w_body (response (serveWrite' h new_ResponseWriter r))
    = json' "unable to decode gzip body"
  ∧ panic (serveWrite' h new_ResponseWriter r) = Some "nil pointer dereference"
  ∧ posts (serveWrite' h new_ResponseWriter r) = [].
Proof.
  intros Hm Hdb Hgz Hz. unfold serveWrite.
  rewrite (bool_decide_eq_true_2 _ Hm). cbn [negb].
  rewrite (bool_decide_eq_false_2 _ Hdb).
  rewrite (bool_decide_eq_true_2 _ Hgz), Hz. done.
Qed.

(** X26. A POST whose body (or, for a gzip-encoded request, whose decoded
    stream) fails while it is read is answered 500, problem reading request
    body; nothing is parsed and nothing is forwarded. *)
Theorem serveWrite_read_error h r body e :
  Request.Method r = "POST" →
  Values_Get (Request.URL_Query r) "db" ≠ "" →
  body_read_by' r body →
  r_err body = Some e →
  (len getBuf + len (r_data body) ≤ maxInt)%Z →
  sent_status (response (serveWrite' h new_ResponseWriter r))
  = StatusInternalServerError
  ∧ w_body (response (serveWrite' h new_ResponseWriter r))
    = json' "problem reading request body"
  ∧ posts (serveWrite' h new_ResponseWriter r) = []
  ∧ panic (serveWrite' h new_ResponseWriter r) = None.
Proof.
  intros Hm Hdb Hbody Herr Hfit.
  rewrite (serveWrite_reads _ _ _ _ Hm Hdb Hbody).
  unfold serveWrite_body, ReadFrom.
  rewrite (Buffer_Write_fits _ _ Hfit). cbn [bind or_panic fst snd]. rewrite Herr.
  done.
Qed.

(** X27. What is forwarded depends on the parsed points alone. For a POST
    whose body, or whose decoded stream when it is gzip-encoded, is read
    and parsed, every write backend is handed the contents of a new buffer
    from [getBuf] followed by the points re-serialized at the request's
    precision: never the bytes as they arrived, compressed or not.  With
    zero points the backends are still posted to, with the contents of the
    new buffer alone. *)
Theorem serveWrite_forwards_points h r body points :
  Request.Method r = "POST" →
  Values_Get (Request.URL_Query r) "db" ≠ "" →
  body_read_by' r body →
  r_err body = None →
  (len getBuf + len (r_data body) ≤ maxInt)%Z →
  ParsePointsWithPrecision (getBuf ++ r_data body) now
    (Values_Get (Request.URL_Query r) "precision") = Some points →
  (len getBuf
   + len (serialized Point PrecisionString points
            (Values_Get (Request.URL_Query r) "precision")) ≤ maxInt)%Z →
  posts (serveWrite' h new_ResponseWriter r)
  = (λ b, {| to := b;
             post_body := getBuf ++ serialized Point PrecisionString points
                                      (Values_Get (Request.URL_Query r) "precision");
             post_query := Encode (queryParams_of h r);
             post_auth := Header_Get' (Request.Header r) "Authorization" |})
    <$> backends h
  ∧ (points = [] →
     ∀ c, c ∈ posts (serveWrite' h new_ResponseWriter r) → post_body c = getBuf)
  ∧ sent_status (response (serveWrite' h new_ResponseWriter r)) = StatusNoContent.
Proof.
  intros Hm Hdb Hbody Herr Hfit1 Hparse Hfit2.
  rewrite (serveWrite_reads _ _ _ _ Hm Hdb Hbody).
  unfold serveWrite_body, ReadFrom.
  rewrite (Buffer_Write_fits _ _ Hfit1). cbn [bind or_panic fst snd]. rewrite Herr.
  rewrite queryParams_of_precision, Hparse.
  rewrite (write_points_fits _ _ _ _ _ Hfit2). cbn [or_panic posts response].
  split; [done|]. split; [|done].
  intros -> c Hc. apply list_elem_of_fmap in Hc as (b & -> & _). cbn [post_body].
  exact (app_nil_r getBuf).
Qed.

Lemma or_panic_posts {A} (w : ResponseWriter) (o : outcome A) (k : A → served)
    (Q : served → Prop) :
  (∀ why, Q (panicking w why)) → (∀ a, o = Done a → Q (k a)) → Q (or_panic w o k).
Proof. intros Hp Hk. destruct o; simpl; auto. Qed.

Lemma serveWrite_forwarding h r :
  posts (serveWrite' h new_ResponseWriter r) = []
  ∨ (sent_status (response (serveWrite' h new_ResponseWriter r)) = StatusNoContent
     ∧ w_body (response (serveWrite' h new_ResponseWriter r)) = []
     ∧ panic (serveWrite' h new_ResponseWriter r) = None
     ∧ to <$> posts (serveWrite' h new_ResponseWriter r) = backends h
     ∧ ∃ outBytes,
         ∀ c, c ∈ posts (serveWrite' h new_ResponseWriter r) →
              post_body c = outBytes
              ∧ post_query c = Encode (queryParams_of h r)
              ∧ post_auth c = Header_Get' (Request.Header r) "Authorization").
Proof.
  assert (∀ body,
            let s := serveWrite_body' h new_ResponseWriter r (queryParams_of h r) body in
            posts s = []
            ∨ (sent_status (response s) = StatusNoContent
               ∧ w_body (response s) = []
               ∧ panic s = None
               ∧ to <$> posts s = backends h
               ∧ ∃ outBytes,
                   ∀ c, c ∈ posts s →
                        post_body c = outBytes
                        ∧ post_query c = Encode (queryParams_of h r)
                        ∧ post_auth c = Header_Get' (Request.Header r) "Authorization"))
    as Hbody.
  { intros body. unfold serveWrite_body. cbv zeta.
    apply or_panic_posts; [by left|]. intros [bodyBuf err] _. cbn [fst snd].
    destruct err; [by left|].
    destruct (ParsePointsWithPrecision _ _ _) as [points|]; [|by left].
    apply or_panic_posts; [by left|]. intros outBytes _. right.
    cbn [response posts panic]. split; [done|]. split; [done|]. split; [done|].
    split; [rewrite <- list_fmap_compose; apply list_fmap_id|].
    exists outBytes. intros c Hc. by apply list_elem_of_fmap in Hc as (b & -> & _). }
  unfold serveWrite.
  case_bool_decide; cbn [negb].
  2:{ left. by case_bool_decide. }
  case_bool_decide; [by left|].
  case_bool_decide.
  - destruct (gzip_NewReader _); [apply Hbody|by left].
  - apply Hbody.
Qed.

(** X13. The write handler forwards all or nothing. Whatever the request,
    either nothing is forwarded, or the response is 204 with no panic and
    every write backend, in configuration order, is handed one post: the
    same bytes for all, the encoded query parameters (with the default
    retention policy filled in) and the request's Authorization header. *)
Theorem serveWrite_all_or_nothing h r :
  posts (serveWrite' h new_ResponseWriter r) = []
  ∨ (sent_status (response (serveWrite' h new_ResponseWriter r)) = StatusNoContent
     ∧ w_body (response (serveWrite' h new_ResponseWriter r)) = []
     ∧ panic (serveWrite' h new_ResponseWriter r) = None
     ∧ to <$> posts (serveWrite' h new_ResponseWriter r) = backends h
     ∧ ∃ outBytes,
         ∀ c, c ∈ posts (serveWrite' h new_ResponseWriter r) →
              post_body c = outBytes
              ∧ post_query c = Encode (queryParams_of h r)
              ∧ post_auth c = Header_Get' (Request.Header r) "Authorization").
Proof. apply serveWrite_forwarding. Qed.

(** X14. The query a write is forwarded with carries the relay's default
    retention policy exactly when the request names none (or an empty one),
    and the request's own otherwise; every other parameter is the
    request's, unchanged. *)
Theorem serveWrite_forwards_retention_policy h r c :
  c ∈ posts (serveWrite' h new_ResponseWriter r) →
  ∃ params,
    post_query c = Encode params
    ∧ Values_Get params "rp"
      = (if decide (Values_Get (Request.URL_Query r) "rp" = "") then rp h
         else Values_Get (Request.URL_Query r) "rp")
    ∧ ∀ k, k ≠ "rp" → params !! k = Request.URL_Query r !! k.
Proof.
  intros Hc. exists (queryParams_of h r). split.
  - destruct (serveWrite_forwarding h r) as [Hnil|(_ & _ & _ & _ & out & Hall)].
    + rewrite Hnil in Hc. by apply elem_of_nil in Hc.
    + by apply Hall.
  - unfold queryParams_of.
    destruct (decide (Values_Get (Request.URL_Query r) "rp" = "")) as [Hrp|Hrp].
    + rewrite (bool_decide_eq_true_2 _ Hrp). cbn [andb].
      case_bool_decide as Hh; cbn [negb].
      * split; [by rewrite Hrp, Hh|done].
      * split.
        -- unfold Values_Get, Values_Set. by rewrite lookup_insert_eq.
        -- intros k Hk. unfold Values_Set. by rewrite lookup_insert_ne.
    + rewrite (bool_decide_eq_false_2 _ Hrp). cbn [andb]. done.
Qed.

(** X15. Dispatch is by the exact path. /ping is answered 204 with the
    header X-InfluxDB-Version: relay and no body, whatever the method; a
    path other than /ping, /query and /write is answered 404 with the JSON
    error invalid write endpoint; neither posts to a backend. *)
Theorem ServeHTTP_ping_and_not_found h r :
  (Request.URL_Path r = "/ping" →
     sent_status (response (ServeHTTP' h new_ResponseWriter r)) = StatusNoContent
     ∧ w_Header (response (ServeHTTP' h new_ResponseWriter r))
       = {[ canon "X-InfluxDB-Version" := ["relay"] ]}
     ∧ w_body (response (ServeHTTP' h new_ResponseWriter r)) = []
     ∧ posts (ServeHTTP' h new_ResponseWriter r) = [])
  ∧ (Request.URL_Path r ≠ "/ping" → Request.URL_Path r ≠ "/query" →
     Request.URL_Path r ≠ "/write" →
     sent_status (response (ServeHTTP' h new_ResponseWriter r)) = StatusNotFound
     ∧ w_body (response (ServeHTTP' h new_ResponseWriter r))
       = json' "invalid write endpoint"
     ∧ posts (ServeHTTP' h new_ResponseWriter r) = []
     ∧ panic (ServeHTTP' h new_ResponseWriter r) = None)
  ∧ (Request.URL_Path r = "/query" →
     ServeHTTP' h new_ResponseWriter r = serveQuery' h new_ResponseWriter r)
  ∧ (Request.URL_Path r = "/write" →
     ServeHTTP' h new_ResponseWriter r = serveWrite' h new_ResponseWriter r).
Proof.
  unfold ServeHTTP. split; [|split; [|split]].
  - intros Hp. rewrite (bool_decide_eq_true_2 _ Hp).
    unfold servePing, Header_Add. cbn. rewrite lookup_empty. done.
  - intros H1 H2 H3. rewrite !bool_decide_eq_false_2 by done. done.
  - intros Hp. rewrite bool_decide_eq_false_2 by (rewrite Hp; discriminate).
    by rewrite (bool_decide_eq_true_2 _ Hp).
  - intros Hp. rewrite !bool_decide_eq_false_2 by (rewrite Hp; discriminate).
    by rewrite (bool_decide_eq_true_2 _ Hp).
Qed.

(** X16. A single-node query whose backend post fails at the transport
    level is answered 400 with the JSON error request failed; exactly the
    drawn backend was posted to. *)
Theorem single_node_transport_error h r b err :
  first_token' r ∈ single_node_tokens →
  queries h !! (random `mod` length (queries h)) = Some b →
  answer_to' r b = PostErr err →
  sent_status (response (serveQuery' h new_ResponseWriter r)) = StatusBadRequest
  ∧ w_body (response (serveQuery' h new_ResponseWriter r)) = json' "request failed"
  ∧ to <$> posts (serveQuery' h new_ResponseWriter r) = [b]
  ∧ panic (serveQuery' h new_ResponseWriter r) = None.
Proof.
  intros Ht Hb Hans.
  rewrite (serveQuery_single _ _ _ _ _ _ _ _ _ Ht).
  unfold single_node_request.
  destruct (length (queries h)) as [|n] eqn:Hlen.
  { apply lookup_lt_Some in Hb. lia. }
  rewrite Hb. unfold answer_to in Hans. rewrite Hans. done.
Qed.

(** X17. With no query backend configured, a statement that would be
    routed to a backend (single-node or all-node) panics the handler before
    anything is written or posted; a statement that is not routed still
    gets its 400. *)
Theorem serveQuery_without_backends h r :
  queries h = [] →
  (first_token' r ∈ single_node_tokens ∨ first_token' r ∈ all_node_tokens →
     is_Some (panic (serveQuery' h new_ResponseWriter r))
     ∧ response (serveQuery' h new_ResponseWriter r) = new_ResponseWriter
     ∧ posts (serveQuery' h new_ResponseWriter r) = [])
  ∧ (first_token' r ∉ single_node_tokens → first_token' r ∉ all_node_tokens →
     panic (serveQuery' h new_ResponseWriter r) = None
     ∧ sent_status (response (serveQuery' h new_ResponseWriter r)) = StatusBadRequest).
Proof.
  intros Hq. split.
  - intros [Ht|Ht].
    + rewrite (serveQuery_single _ _ _ _ _ _ _ _ _ Ht).
      unfold single_node_request. rewrite Hq. simpl. eauto.
    + rewrite (serveQuery_all _ _ _ _ _ _ _ _ _ Ht).
      unfold all_node_request, all_node_loop. rewrite Hq. simpl. eauto.
  - intros Hs Ha. by rewrite (serveQuery_error _ _ _ _ _ _ _ _ _ Hs Ha).
Qed.

(** X18. Whatever the query handler posts to a backend has an empty body,
    the request's query parameters re-encoded and the request's
    Authorization header; the statement is never rewritten (not even
    upper-cased) on its way to the backend. *)
Theorem serveQuery_forwards_request h r c :
  c ∈ posts (serveQuery' h new_ResponseWriter r) →
  post_body c = []
  ∧ post_query c = Encode (Request.URL_Query r)
  ∧ post_auth c = Header_Get' (Request.Header r) "Authorization"
  ∧ to c ∈ queries h.
Proof.
  unfold serveQuery. intros Hc.
  repeat case_bool_decide.
  - unfold single_node_request in Hc.
    destruct (length (queries h)); [by apply elem_of_nil in Hc|].
    destruct (queries h !! _) as [b|] eqn:Hb; [|by apply elem_of_nil in Hc].
    apply list_elem_of_lookup_2 in Hb.
    destruct (backend_post _ _ _ _); apply list_elem_of_singleton in Hc; by subst c.
  - unfold all_node_request in Hc.
    destruct (all_node_loop _ _ _ _ _) as [[resp|e]|]; cbn [posts] in Hc;
      apply list_elem_of_fmap in Hc as (b & -> & Hb); done.
  - by apply elem_of_nil in Hc.
  - by apply elem_of_nil in Hc.
Qed.

(** X19. The answer to an all-node query whose last backend answered
    carries that backend's body under status 200 but none of its headers,
    where a single-node answer copies them. *)
Theorem all_node_copies_no_headers h r qs b resp :
  first_token' r ∈ all_node_tokens →
  queries h = qs ++ [b] →
  answer_to' r b = PostOk resp →
  response (serveQuery' h new_ResponseWriter r)
  = {| w_Header := ∅; w_status := Some StatusOK; w_body := Body resp |}.
Proof.
  intros Ht Hq Hans.
  rewrite (serveQuery_all _ _ _ _ _ _ _ _ _ Ht).
  unfold all_node_request.
  rewrite (all_node_loop_last _ _ _ _ _ _ _ Hq), Hans. done.
Qed.

End handler_facts.

(** ** The flush and the scan, continued *)

Lemma quot_100_is_5 (z : Z) : (Z.quot z 100 =? 5)%Z = true ↔ (500 ≤ z ≤ 599)%Z.
Proof.
  rewrite Z.eqb_eq. split.
  - intros Hq. pose proof (Z.quot_rem' z 100) as Hz.
    destruct (Z_lt_le_dec z 0) as [Hneg|Hpos].
    + pose proof (Z.quot_opp_l z 100 ltac:(lia)) as Hopp.
      pose proof (Z.quot_pos (- z) 100 ltac:(lia) ltac:(lia)). lia.
    + pose proof (Z.rem_bound_pos z 100 Hpos ltac:(lia)). lia.
  - intros Hz. symmetry. apply Z.quot_unique with (r := (z - 500)%Z); lia.
Qed.

(** X24. A flush takes any answer that is not a transport error and whose
    status is outside 500..599 as delivered: it posts once, logs the send
    and never retries, for a 400 just as for a 204. *)
Theorem flush_accepts_any_non_5xx {P} reply (r : retryBuffer P) data query auth w
    fuel resp :
  reply (n_post w) data query auth = PostOk resp →
  (StatusCode resp < 500 ∨ 599 < StatusCode resp)%Z →
  postToInfluxDB reply (S fuel) r data query auth w
  = Done {| n_post := S (n_post w); n_now := n_now w;
            trace := trace w ++ [EvPost data query auth; EvLogSend (len data)] |}.
Proof.
  intros Hreply Hstatus. unfold postToInfluxDB. cbn [postToInfluxDB_loop].
  rewrite Hreply. unfold delivered.
  destruct (Z.quot (StatusCode resp) 100 =? 5)%Z eqn:E.
  - apply quot_100_is_5 in E. lia.
  - unfold emit, tick_post. simpl. by rewrite <- app_assoc.
Qed.

Lemma scan_all_due {P} reply clock fuel (r : retryBuffer P) todo :
  initialInterval r = retryInitial →
  multiplier r = retryMultiplier →
  (maxInterval r ≤ 2 ^ 62)%Z →
  35 ≤ fuel →
  ∀ index arr m w,
    2 ≤ length arr → 1 ≤ todo →
    todo + index = length arr → m + index = length arr →
    (∀ k c, c ∈ arr → due r (clock k) c = true) →
    scan reply clock fuel r todo index arr m w = Panicked "slice bounds out of range".
Proof.
  intros Hinit Hmult Hmax Hfuel.
  induction todo as [|todo IH]; intros index arr m w Hlen Htodo Hti Hmi Hdue; [lia|].
  simpl. destruct (arr !! index) as [c|] eqn:Hc.
  2:{ apply lookup_ge_None in Hc. lia. }
  rewrite (Hdue _ c) by (by eapply list_elem_of_lookup_2).
  case_decide as Hle; [|done].
  destruct (postToInfluxDB_returns reply r (cachedPoints.Buf c) (cachedPoints.Query c)
              (cachedPoints.Auth c) (tick_now w) fuel Hinit Hmult Hmax Hfuel)
    as [w1 ->].
  cbn [bind]. apply IH.
  - rewrite !length_app, length_take, !length_drop, length_take. lia.
  - lia.
  - rewrite !length_app, length_take, !length_drop, length_take. lia.
  - rewrite !length_app, length_take, !length_drop, length_take. lia.
  - intros k c' Hc'. apply Hdue. by eapply scan_array_step.
Qed.

(** X25. When two or more batches are cached and every one of them is due
    throughout a scan, the processing loop panics with slice bounds out of
    range: after a removal the range still visits the slots of the old
    slice, and the removal at a slot past the shortened list slices beyond
    its length. *)
Theorem run_iteration_all_due_panics {P} reply clock fuel (r : retryBuffer P) w :
  chan_buf (itemChan r) = [] →
  2 ≤ length (cachedItems r) →
  (∀ k c, c ∈ cachedItems r → due r (clock k) c = true) →
  initialInterval r = retryInitial →
  multiplier r = retryMultiplier →
  (maxInterval r ≤ 2 ^ 62)%Z →
  35 ≤ fuel →
  run_iteration reply clock fuel r w = Panicked "slice bounds out of range".
Proof.
  intros Hchan Hlen Hdue Hinit Hmult Hmax Hfuel.
  unfold run_iteration. rewrite Hchan. cbn [bind fst snd].
  rewrite (scan_all_due reply clock fuel r _ Hinit Hmult Hmax Hfuel); try done; lia.
Qed.

(** *** Construction *)

Lemma build_inl_iff {C} (make : C → httpBackend + string) (cfgs : list C) bs :
  build make cfgs = inl bs ↔ Forall2 (λ c b, make c = inl b) cfgs bs.
Proof.
  split; [apply build_Forall2|].
  induction 1 as [|c b cs bs' Hb _ IH]; simpl; [done|]. by rewrite Hb, IH.
Qed.

(** X20. Building a write backend fails exactly when its timeout is given
    and does not parse, or when buffering is on (a positive buffer size)
    and its max-delay interval is given and does not parse; without
    buffering an unparsable max-delay interval is never looked at.
    Building a query backend fails exactly when its timeout is given and
    does not parse. *)
Theorem backend_construction_errors (ParseDuration : string → Z + string) :
  (∀ cfg,
     (∃ err, newHTTPBackend ParseDuration cfg = inr err)
     ↔ (HTTPOutputConfig.Timeout cfg ≠ ""
        ∧ ∃ e, ParseDuration (HTTPOutputConfig.Timeout cfg) = inr e)
       ∨ ((0 < HTTPOutputConfig.BufferSizeMB cfg)%Z
          ∧ HTTPOutputConfig.MaxDelayInterval cfg ≠ ""
          ∧ ∃ e, ParseDuration (HTTPOutputConfig.MaxDelayInterval cfg) = inr e))
  ∧ (∀ cfg,
       (∃ err, newHttpQueryBackend ParseDuration cfg = inr err)
       ↔ (HTTPQueryConfig.Timeout cfg ≠ ""
          ∧ ∃ e, ParseDuration (HTTPQueryConfig.Timeout cfg) = inr e)).
Proof.
  split; intros cfg.
  - unfold newHTTPBackend.
    destruct (decide (HTTPOutputConfig.Timeout cfg = "")) as [Ht|Ht].
    + destruct (HTTPOutputConfig.BufferSizeMB cfg >? 0)%Z eqn:Hbuf.
      * destruct (decide (HTTPOutputConfig.MaxDelayInterval cfg = "")) as [Hm|Hm].
        -- split; [by intros [? ?]|]. intros [[? _]|(_ & ? & _)]; done.
        -- destruct (ParseDuration (HTTPOutputConfig.MaxDelayInterval cfg))
             as [max|e] eqn:Hp.
           ++ split; [by intros [? ?]|]. intros [[? _]|(_ & _ & ? & ?)]; done.
           ++ split; [|intros _; by eexists]. intros _. right.
              split; [lia|]. split; [done|]. by exists e.
      * split; [by intros [? ?]|]. intros [[? _]|(? & _)]; [done|lia].
    + destruct (ParseDuration (HTTPOutputConfig.Timeout cfg)) as [timeout|e] eqn:Hp.
      * destruct (HTTPOutputConfig.BufferSizeMB cfg >? 0)%Z eqn:Hbuf.
        -- destruct (decide (HTTPOutputConfig.MaxDelayInterval cfg = "")) as [Hm|Hm].
           ++ split; [by intros [? ?]|]. intros [(_ & ? & ?)|(_ & ? & _)]; done.
           ++ destruct (ParseDuration (HTTPOutputConfig.MaxDelayInterval cfg))
                as [max|e] eqn:Hp2.
              ** split; [by intros [? ?]|].
                 intros [(_ & ? & ?)|(_ & _ & ? & ?)]; done.
              ** split; [|intros _; by eexists]. intros _. right.
                 split; [lia|]. split; [done|]. by exists e.
        -- split; [by intros [? ?]|]. intros [(_ & ? & ?)|(? & _)]; [done|lia].
      * split; [|intros _; by eexists]. intros _. left. split; [done|]. by exists e.
  - unfold newHttpQueryBackend.
    destruct (decide (HTTPQueryConfig.Timeout cfg = "")) as [Ht|Ht].
    + split; [by intros [? ?]|]. by intros [? _].
    + destruct (ParseDuration (HTTPQueryConfig.Timeout cfg)) as [timeout|e] eqn:Hp.
      * split; [by intros [? ?]|]. by intros (_ & ? & ?).
      * split; [|intros _; by eexists]. intros _. split; [done|]. by exists e.
Qed.

(** X21. A write backend that is built takes its name from the
    configuration, or its location when the name is empty.  With a buffer
    size of zero or less its poster is the plain one, and the batch size and
    max-delay settings play no part; with a positive buffer size the plain
    poster is wrapped in a new retry buffer that starts empty, flushes a
    batch above buffer-size x 1 MiB or older than the max-delay interval
    (10 s when none is given), and has the batch size given in KiB (512 KiB
    when none is given or it is not positive). *)
Theorem newHTTPBackend_shape (ParseDuration : string → Z + string) cfg b :
  newHTTPBackend ParseDuration cfg = inl b →
  name b = (if decide (HTTPOutputConfig.Name cfg = "")
            then HTTPOutputConfig.Location cfg else HTTPOutputConfig.Name cfg)
  ∧ location (simple_of (backend_poster b)) = HTTPOutputConfig.Location cfg
  ∧ (HTTPOutputConfig.Timeout cfg = "" →
     Timeout (client (simple_of (backend_poster b))) = (10 * time.Second)%Z)
  ∧ ((HTTPOutputConfig.BufferSizeMB cfg ≤ 0)%Z →
     backend_poster b = SimplePoster (simple_of (backend_poster b)))
  ∧ ((0 < HTTPOutputConfig.BufferSizeMB cfg)%Z →
     ∃ rb, backend_poster b = RetryBuffer rb
           ∧ p rb = SimplePoster (simple_of (backend_poster b))
           ∧ cachedItems rb = [] ∧ chan_buf (itemChan rb) = []
           ∧ maxBuffered rb = wrap64 (HTTPOutputConfig.BufferSizeMB cfg * 1048576)
           ∧ maxBatch rb
             = (if (HTTPOutputConfig.MaxBatchKB cfg >? 0)%Z
                then wrap64 (HTTPOutputConfig.MaxBatchKB cfg * 1024)
                else 524288%Z)
           ∧ (HTTPOutputConfig.MaxDelayInterval cfg = "" →
              maxInterval rb = (10 * time.Second)%Z)
           ∧ (HTTPOutputConfig.MaxDelayInterval cfg ≠ "" →
              ParseDuration (HTTPOutputConfig.MaxDelayInterval cfg)
              = inl (maxInterval rb))).
Proof.
  unfold newHTTPBackend. intros Hb.
  destruct (if decide (HTTPOutputConfig.Timeout cfg = "") then _ else _)
    as [timeout|err] eqn:Htimeout; [|done].
  assert (HTTPOutputConfig.Timeout cfg = "" → timeout = (10 * time.Second)%Z) as Hdef.
  { intros Ht. rewrite decide_True in Htimeout by done. by simplify_eq. }
  destruct (HTTPOutputConfig.BufferSizeMB cfg >? 0)%Z eqn:Hbuf.
  - destruct (decide (HTTPOutputConfig.MaxDelayInterval cfg = "")) as [Hm|Hm].
    + simplify_eq/=. split; [done|]. split; [done|]. split; [done|].
      split; [lia|]. intros _. eexists. split; [reflexivity|]. simpl.
      repeat split; try done.
    + destruct (ParseDuration (HTTPOutputConfig.MaxDelayInterval cfg))
        as [max|e] eqn:Hp; [|done].
      simplify_eq/=. split; [done|]. split; [done|]. split; [done|].
      split; [lia|]. intros _. eexists. split; [reflexivity|]. simpl.
      repeat split; try done.
  - simplify_eq/=. split; [done|]. split; [done|]. split; [done|].
    split; [done|]. lia.
Qed.

(** X22. [NewHTTP] builds a relay exactly when every output and every
    query of the configuration builds; the relay then has one write backend
    per output and one query backend per query, in the order of the
    configuration, the configured address, name and default retention
    policy, and the scheme https exactly when a certificate is configured.
    A configuration with no outputs and no queries is accepted. *)
Theorem NewHTTP_builds_all_or_fails (ParseDuration : string → Z + string) cfg h :
  NewHTTP ParseDuration cfg = inl h
  ↔ Forall2 (λ c b, newHTTPBackend ParseDuration c = inl b)
      (HTTPConfig.Outputs cfg) (backends h)
    ∧ Forall2 (λ c b, newHttpQueryBackend ParseDuration c = inl b)
        (HTTPConfig.Queries cfg) (queries h)
    ∧ addr h = HTTPConfig.Addr cfg ∧ relay_name h = HTTPConfig.Name cfg
    ∧ cert h = HTTPConfig.SSLCombinedPem cfg
    ∧ rp h = HTTPConfig.DefaultRetentionPolicy cfg
    ∧ closing h = 0%Z
    ∧ schema h = (if decide (HTTPConfig.SSLCombinedPem cfg = "") then "http"
                  else "https").
Proof.
  unfold NewHTTP. split.
  - intros Hh.
    destruct (build _ (HTTPConfig.Outputs cfg)) as [bs|err] eqn:Hbs; [|done].
    destruct (build _ (HTTPConfig.Queries cfg)) as [qs|err] eqn:Hqs; [|done].
    simplify_eq/=. apply build_Forall2 in Hbs, Hqs. done.
  - intros (Hbs & Hqs & Ha & Hn & Hc & Hr & Hcl & Hs).
    apply build_inl_iff in Hbs, Hqs. rewrite Hbs, Hqs.
    destruct h. simpl in *. by subst.
Qed.

(** *** White space around a statement *)

Lemma isASCII_app (a b : string) : isASCII (a +:+ b) = isASCII a && isASCII b.
Proof. induction a as [|c a IH]; simpl; [done|]. by rewrite IH, andb_assoc. Qed.

Lemma map_bytes_app (f : ascii → ascii) (a b : string) :
  map_bytes f (a +:+ b) = map_bytes f a +:+ map_bytes f b.
Proof. induction a as [|c a IH]; simpl; [done|]. by rewrite IH. Qed.

Lemma TrimLeft_app_l (cutset pre s : string) :
  all_in_cutset cutset pre = true →
  TrimLeft (pre +:+ s) cutset = TrimLeft s cutset.
Proof.
  induction pre as [|c pre IH]; simpl; [done|].
  intros [Hc Hpre]%andb_true_iff. rewrite Hc. by apply IH.
Qed.

Lemma TrimLeft_all (cutset s : string) :
  all_in_cutset cutset s = true → TrimLeft s cutset = EmptyString.
Proof.
  induction s as [|c s IH]; simpl; [done|].
  intros [Hc Hs]%andb_true_iff. rewrite Hc. by apply IH.
Qed.

Lemma TrimRight_all (cutset s : string) :
  all_in_cutset cutset s = true → TrimRight s cutset = EmptyString.
Proof.
  induction s as [|c s IH]; simpl; [done|].
  intros [Hc Hs]%andb_true_iff. by rewrite IH, Hc.
Qed.

Lemma TrimRight_app_r (cutset s post : string) :
  all_in_cutset cutset post = true →
  TrimRight (s +:+ post) cutset = TrimRight s cutset.
Proof.
  intros Hpost. induction s as [|c s IH]; simpl.
  - by apply TrimRight_all.
  - by rewrite IH.
Qed.

Lemma Trim_app_r (cutset s post : string) :
  all_in_cutset cutset post = true →
  Trim (s +:+ post) cutset = Trim s cutset.
Proof.
  intros Hpost. unfold Trim. induction s as [|c s IH].
  - change (EmptyString +:+ post) with post.
    by rewrite (TrimLeft_all _ _ Hpost).
  - change (String c s +:+ post) with (String c (s +:+ post)).
    cbn [TrimLeft]. destruct (in_cutset cutset c); [exact IH|].
    by apply (TrimRight_app_r cutset (String c s)).
Qed.

(** X23. White space (space, tab, carriage return, line feed) before and
    after a statement does not change how it is routed: for an ASCII
    statement the first token is the same, and so the same query backends
    are posted to. *)
Theorem routing_ignores_surrounding_whitespace
    unicode_ToUpper CanonicalMIMEHeaderKey Quote Encode backend_post random
    h r (pre q post : string) :
  isASCII q = true →
  all_in_cutset whitespace pre = true →
  all_in_cutset whitespace post = true →
  token_of unicode_ToUpper (pre +:+ q +:+ post) = token_of unicode_ToUpper q
  ∧ to <$> posts (serveQuery unicode_ToUpper CanonicalMIMEHeaderKey Quote Encode
                    backend_post random h new_ResponseWriter
                    (with_q r (pre +:+ q +:+ post)))
    = to <$> posts (serveQuery unicode_ToUpper CanonicalMIMEHeaderKey Quote Encode
                      backend_post random h new_ResponseWriter (with_q r q)).
Proof.
  intros Hq Hpre Hpost.
  destruct (whitespace_only pre Hpre) as (Hpre1 & Hpre2 & _).
  destruct (whitespace_only post Hpost) as (Hpost1 & Hpost2 & _).
  assert (token_of unicode_ToUpper (pre +:+ q +:+ post) = token_of unicode_ToUpper q)
    as Ht.
  { unfold token_of, ToUpper.
    rewrite !isASCII_app, Hpre1, Hq, Hpost1. simpl.
    rewrite !map_bytes_app, Hpre2, Hpost2.
    replace (Trim (pre +:+ map_bytes upper_byte q +:+ post) whitespace)
      with (Trim (map_bytes upper_byte q) whitespace); [done|].
    unfold Trim at 2. rewrite (TrimLeft_app_l _ _ _ Hpre).
    fold (Trim (map_bytes upper_byte q +:+ post) whitespace).
    by rewrite (Trim_app_r _ _ _ Hpost). }
  split; [exact Ht|].
  apply targets_by_token. by rewrite !first_token_with_q.
Qed.

(** ** The further properties at concrete requests *)

Lemma jsonError_response_witness :
  w_status (jsonError demo_canonical demo_Quote new_ResponseWriter 400 "request failed")
  = Some (default 400%Z (w_status new_ResponseWriter))
  ∧ w_body (jsonError demo_canonical demo_Quote new_ResponseWriter 400 "request failed")
    = w_body new_ResponseWriter
      ++ String.list_byte_of_string (jsonError_data demo_Quote "request failed")
  ∧ w_Header (jsonError demo_canonical demo_Quote new_ResponseWriter 400 "request failed")
    !! demo_canonical "Content-Length"
    = Some [pretty (length (String.list_byte_of_string
                              (jsonError_data demo_Quote "request failed")))]
  ∧ w_Header (jsonError demo_canonical demo_Quote new_ResponseWriter 400 "request failed")
    !! demo_canonical "Content-Type" = Some ["application/json"]
  ∧ (∀ k, k ≠ demo_canonical "Content-Length" → k ≠ demo_canonical "Content-Type" →
          w_Header (jsonError demo_canonical demo_Quote new_ResponseWriter 400
                      "request failed") !! k
          = w_Header new_ResponseWriter !! k).
Proof.
  apply (jsonError_response demo_canonical demo_Quote new_ResponseWriter 400
           "request failed").
  vm_compute. discriminate.
Defined.

Lemma serveWrite_method_not_allowed_witness :
  sent_status (response (demo_serveWrite two_writers demo_get_write))
  = StatusMethodNotAllowed
  ∧ posts (demo_serveWrite two_writers demo_get_write) = []
  ∧ w_Header (response (demo_serveWrite two_writers demo_get_write))
    !! demo_canonical "Allow" = Some ["POST"].
Proof.
  destruct (serveWrite_method_not_allowed demo_canonical demo_Quote demo_Encode string
              demo_Parse demo_PrecisionString demo_gzip 0 two_writers demo_get_write)
    as (Hposts & _ & Hallow & _ & Hother).
  - vm_compute. discriminate.
  - vm_compute. discriminate.
  - vm_compute. discriminate.
  - split; [|split; [exact Hposts|exact Hallow]].
    apply Hother. vm_compute. discriminate.
Defined.

Lemma serveWrite_missing_db_witness :
  sent_status (response (demo_serveWrite two_writers demo_write_no_db))
  = StatusBadRequest
  ∧ posts (demo_serveWrite two_writers demo_write_no_db) = [].
Proof.
  destruct (serveWrite_missing_db demo_canonical demo_Quote demo_Encode string
              demo_Parse demo_PrecisionString demo_gzip 0 two_writers demo_write_no_db)
    as (_ & Hst & _ & Hposts).
  - reflexivity.
  - vm_compute. reflexivity.
  - split; [exact Hst|exact Hposts].
Defined.

Lemma serveWrite_unparsable_witness :
  sent_status (response (strict_serveWrite two_writers demo_write_garbage))
  = StatusBadRequest
  ∧ w_body (response (strict_serveWrite two_writers demo_write_garbage))
    = String.list_byte_of_string (jsonError_data demo_Quote "unable to parse points")
  ∧ posts (strict_serveWrite two_writers demo_write_garbage) = []
  ∧ panic (strict_serveWrite two_writers demo_write_garbage) = None.
Proof.
  apply (serveWrite_unparsable demo_canonical demo_Quote demo_Encode string
           strict_Parse demo_PrecisionString demo_gzip 0 two_writers
           demo_write_garbage (plain_body "garbage")).
  - reflexivity.
  - vm_compute. discriminate.
  - left. split; [vm_compute; discriminate|reflexivity].
  - reflexivity.
  - vm_compute. discriminate.
  - vm_compute. reflexivity.
Defined.

Lemma serveWrite_gzip_rejected_witness :
  w_status (response (demo_serveWrite two_writers demo_write_not_gzip))
  = Some StatusBadRequest
  ∧ w_body (response (demo_serveWrite two_writers demo_write_not_gzip))
    = String.list_byte_of_string
        (jsonError_data demo_Quote "unable to decode gzip body")
  ∧ panic (demo_serveWrite two_writers demo_write_not_gzip)
    = Some "nil pointer dereference"
  ∧ posts (demo_serveWrite two_writers demo_write_not_gzip) = [].
Proof.
  apply (serveWrite_gzip_rejected demo_canonical demo_Quote demo_Encode string
           demo_Parse demo_PrecisionString demo_gzip 0 two_writers
           demo_write_not_gzip).
  - reflexivity.
  - vm_compute. discriminate.
  - vm_compute. reflexivity.
  - vm_compute. reflexivity.
Defined.

Lemma demo_forwarded_posted :
  demo_forwarded ∈ posts (demo_serveWrite two_writers_weekly demo_write).
Proof. apply list_elem_of_In. vm_compute. left. reflexivity. Defined.

Lemma serveWrite_forwards_retention_policy_witness :
  ∃ params,
    post_query demo_forwarded = demo_Encode params
    ∧ Values_Get params "rp"
      = (if decide (Values_Get (Request.URL_Query demo_write) "rp" = "")
         then rp two_writers_weekly
         else Values_Get (Request.URL_Query demo_write) "rp")
    ∧ ∀ k, k ≠ "rp" → params !! k = Request.URL_Query demo_write !! k.
Proof.
  exact (serveWrite_forwards_retention_policy demo_canonical demo_Quote demo_Encode
           string demo_Parse demo_PrecisionString demo_gzip 0 two_writers_weekly
           demo_write demo_forwarded demo_forwarded_posted).
Defined.

Lemma single_node_transport_error_witness :
  sent_status (response (demo_serveQuery only_down demo_select)) = StatusBadRequest
  ∧ w_body (response (demo_serveQuery only_down demo_select))
    = String.list_byte_of_string (jsonError_data demo_Quote "request failed")
  ∧ to <$> posts (demo_serveQuery only_down demo_select) = [demo_backend "down"]
  ∧ panic (demo_serveQuery only_down demo_select) = None.
Proof.
  exact (single_node_transport_error id demo_canonical demo_Quote demo_Encode
           demo_answers 7 only_down demo_select (demo_backend "down")
           "connection refused" demo_select_single_node eq_refl eq_refl).
Defined.

Lemma serveQuery_without_backends_witness :
  is_Some (panic (demo_serveQuery no_backends demo_select))
  ∧ response (demo_serveQuery no_backends demo_select) = new_ResponseWriter
  ∧ posts (demo_serveQuery no_backends demo_select) = [].
Proof.
  destruct (serveQuery_without_backends id demo_canonical demo_Quote demo_Encode
              demo_answers 7 no_backends demo_select eq_refl) as [Hrouted _].
  apply Hrouted. left. exact demo_select_single_node.
Defined.

Lemma demo_forwarded_query_posted :
  demo_forwarded_query ∈ posts (demo_serveQuery up_then_down demo_drop).
Proof. apply list_elem_of_In. vm_compute. left. reflexivity. Defined.

Lemma serveQuery_forwards_request_witness :
  post_body demo_forwarded_query = []
  ∧ post_query demo_forwarded_query = demo_Encode (Request.URL_Query demo_drop)
  ∧ post_auth demo_forwarded_query
    = Header_Get demo_canonical (Request.Header demo_drop) "Authorization"
  ∧ to demo_forwarded_query ∈ queries up_then_down.
Proof.
  exact (serveQuery_forwards_request id demo_canonical demo_Quote demo_Encode
           demo_answers 7 up_then_down demo_drop demo_forwarded_query
           demo_forwarded_query_posted).
Defined.

Lemma all_node_copies_no_headers_witness :
  response (demo_serveQuery down_then_up demo_drop)
  = {| w_Header := ∅; w_status := Some StatusOK; w_body := [x7b; x7d] |}.
Proof.
  exact (all_node_copies_no_headers id demo_canonical demo_Quote demo_Encode
           demo_answers 7 down_then_up demo_drop [demo_backend "down"]
           (demo_backend "up")
           {| Headers := {[ "content-type" := "application/json" ]};
              StatusCode := StatusOK; Body := [x7b; x7d] |}
           demo_drop_all_node eq_refl eq_refl).
Defined.

Lemma newHTTPBackend_shape_witness :
  name demo_output_backend = "w1"
  ∧ location (simple_of (backend_poster demo_output_backend)) = "https://db1:8086/write"
  ∧ ∃ rb, backend_poster demo_output_backend = RetryBuffer rb
          ∧ maxBuffered rb = wrap64 (1 * 1048576)
          ∧ maxInterval rb = (10 * time.Second)%Z.
Proof.
  destruct (newHTTPBackend_shape demo_ParseDuration demo_output_cfg demo_output_backend)
    as (Hname & Hloc & _ & _ & Hbuf).
  - vm_compute. reflexivity.
  - split; [exact Hname|]. split; [exact Hloc|].
    destruct Hbuf as (rb & Hrb & _ & _ & _ & Hsize & _ & Hmax & _).
    + vm_compute. reflexivity.
    + exists rb. split; [exact Hrb|]. split; [exact Hsize|]. by apply Hmax.
Defined.

Lemma routing_ignores_surrounding_whitespace_witness :
  token_of id (" " +:+ "select 1" +:+ String nl EmptyString) = token_of id "select 1"
  ∧ to <$> posts (demo_serveQuery up_then_down
                    (with_q demo_select
                       (" " +:+ "select 1" +:+ String nl EmptyString)))
    = to <$> posts (demo_serveQuery up_then_down (with_q demo_select "select 1")).
Proof.
  apply (routing_ignores_surrounding_whitespace id demo_canonical demo_Quote
           demo_Encode demo_answers 7 up_then_down demo_select
           " " "select 1" (String nl EmptyString)).
  - reflexivity.
  - reflexivity.
  - reflexivity.
Defined.

Lemma flush_accepts_any_non_5xx_witness :
  postToInfluxDB rejecting 1 demo_buffer demo_A "db=x" "" world0
  = Done {| n_post := 1; n_now := 0;
            trace := [] ++ [EvPost demo_A "db=x" ""; EvLogSend (len demo_A)] |}.
Proof.
  apply (flush_accepts_any_non_5xx rejecting demo_buffer demo_A "db=x" "" world0 0
           {| Headers := ∅; StatusCode := StatusBadRequest; Body := [] |}).
  - reflexivity.
  - left. vm_compute. reflexivity.
Defined.

Lemma run_iteration_all_due_panics_witness :
  run_iteration accepting (clock_at (20 * time.Second)) 35 demo_two_cached world0
  = Panicked "slice bounds out of range".
Proof.
  apply (run_iteration_all_due_panics accepting (clock_at (20 * time.Second)) 35
           demo_two_cached world0).
  - reflexivity.
  - simpl. lia.
  - intros k c Hc. apply list_elem_of_In in Hc. simpl in Hc.
    destruct Hc as [<-|[<-|[]]]; reflexivity.
  - reflexivity.
  - reflexivity.
  - vm_compute. discriminate.
  - lia.
Defined.

Lemma serveWrite_read_error_witness :
  sent_status (response (demo_serveWrite two_writers demo_write_broken))
  = StatusInternalServerError
  ∧ w_body (response (demo_serveWrite two_writers demo_write_broken))
    = String.list_byte_of_string
        (jsonError_data demo_Quote "problem reading request body")
  ∧ posts (demo_serveWrite two_writers demo_write_broken) = []
  ∧ panic (demo_serveWrite two_writers demo_write_broken) = None.
Proof.
  apply (serveWrite_read_error demo_canonical demo_Quote demo_Encode string
           demo_Parse demo_PrecisionString demo_gzip 0 two_writers demo_write_broken
           (Request.Body demo_write_broken) "connection reset").
  - reflexivity.
  - vm_compute. discriminate.
  - left. split; [vm_compute; discriminate|reflexivity].
  - reflexivity.
  - vm_compute. discriminate.
Defined.

Lemma serveWrite_forwards_points_witness :
  posts (demo_serveWrite two_writers_weekly demo_write)
  = (λ b, {| to := b;
             post_body := getBuf ++ serialized string demo_PrecisionString [demo_line]
                                      (Values_Get (Request.URL_Query demo_write)
                                         "precision");
             post_query := demo_Encode (queryParams_of two_writers_weekly demo_write);
             post_auth := Header_Get demo_canonical (Request.Header demo_write)
                            "Authorization" |})
    <$> backends two_writers_weekly
  ∧ ([demo_line] = [] →
     ∀ c, c ∈ posts (demo_serveWrite two_writers_weekly demo_write) →
          post_body c = getBuf)
  ∧ sent_status (response (demo_serveWrite two_writers_weekly demo_write))
    = StatusNoContent.
Proof.
  apply (serveWrite_forwards_points demo_canonical demo_Quote demo_Encode string
           demo_Parse demo_PrecisionString demo_gzip 0 two_writers_weekly demo_write
           (Request.Body demo_write) [demo_line]).
  - reflexivity.
  - vm_compute. discriminate.
  - left. split; [vm_compute; discriminate|reflexivity].
  - reflexivity.
  - vm_compute. discriminate.
  - vm_compute. reflexivity.
  - vm_compute. discriminate.
Defined.
